(** * gatsby-script: the strategy-driven script injection engine

    A shallow embedding of [packages/gatsby-script/src/gatsby-script.tsx]:
    the [Script] component (its render result, its mount effect and the
    cleanup the effect returns), [injectScript], [resolveInlineScript] and
    [resolveAttributes], over an explicit model of the host (document,
    idle scheduler, performance timeline) and of the module-level
    [scriptCache]. *)

From stdpp Require Import base option list strings countable gmap.

(** ** JavaScript values

    The values a [ScriptProps] field can hold: [undefined], strings (ids,
    urls, attribute values, the strategy), booleans ([async], [defer]),
    the [{ __html }] object of [dangerouslySetInnerHTML] and functions
    (the event handlers, identified by a reference number). *)

Inductive Value : Type :=
  | VUndefined
  | VString (s : string)
  | VBool (b : bool)
  | VHtml (html : option string)
  | VHandler (ref : nat).

#[global] Instance Value_eq_dec : EqDecision Value.
Proof. solve_decision. Defined.

Definition Value_enc (v : Value) : unit + (string + (bool + (option string + nat))) :=
  match v with
  | VUndefined => inl ()
  | VString s => inr (inl s)
  | VBool b => inr (inr (inl b))
  | VHtml h => inr (inr (inr (inl h)))
  | VHandler r => inr (inr (inr (inr r)))
  end.

Definition Value_dec (x : unit + (string + (bool + (option string + nat)))) : Value :=
  match x with
  | inl _ => VUndefined
  | inr (inl s) => VString s
  | inr (inr (inl b)) => VBool b
  | inr (inr (inr (inl h))) => VHtml h
  | inr (inr (inr (inr r))) => VHandler r
  end.

#[global] Instance Value_countable : Countable Value.
Proof. by apply (inj_countable' Value_enc Value_dec); intros []. Defined.

(** JavaScript truthiness: [undefined], the empty string and [false] are
    falsy; objects and functions are truthy. *)
Definition truthy (v : Value) : bool :=
  match v with
  | VUndefined => false
  | VString s => negb (String.eqb s "")
  | VBool b => b
  | VHtml _ => true
  | VHandler _ => true
  end.

(** [a || b] *)
Definition js_or (a b : Value) : Value := if truthy a then a else b.

(** A destructuring default, [{ x = d }]: the default replaces [undefined]
    only. *)
Definition with_default (d v : Value) : Value :=
  match v with VUndefined => d | _ => v end.

(** ** Objects

    An object is the list of its own enumerable entries, in the order
    [Object.entries] yields them. *)

Abbreviation Obj := (list (string * Value)) (only parsing).

(** [o.k] (and a destructured [{ k }]): [undefined] when the key is absent. *)
Fixpoint obj_get (k : string) (o : Obj) : Value :=
  match o with
  | [] => VUndefined
  | (k', v) :: o' => if String.eqb k k' then v else obj_get k o'
  end.

(** [o[k] = v]: an existing key keeps its place, a new one goes last. *)
Fixpoint obj_set (k : string) (v : Value) (o : Obj) : Obj :=
  match o with
  | [] => [(k, v)]
  | (k', v') :: o' =>
      if String.eqb k k' then (k', v) :: o' else (k', v') :: obj_set k v o'
  end.

(** [{ ...o1, ...o2 }] onto an object under construction. *)
Definition obj_spread (o1 o2 : Obj) : Obj :=
  fold_left (fun acc kv => obj_set kv.1 kv.2 acc) o2 o1.

Definition keys (o : Obj) : list string := o.*1.

(** ** The strategy enumeration, string-backed as in the source *)

Inductive ScriptStrategy : Type :=
  | preHydrate
  | postHydrate
  | idle
  | experimentalPartytown.

Definition strategy_string (s : ScriptStrategy) : string :=
  match s with
  | preHydrate => "pre-hydrate"
  | postHydrate => "post-hydrate"
  | idle => "idle"
  | experimentalPartytown => "experimental-partytown"
  end.

Coercion strategy_value (s : ScriptStrategy) : Value := VString (strategy_string s).

(** [a === b] on the values of the model. *)
Definition strict_eq (a b : Value) : bool := bool_decide (a = b).

(** ** Props and the two resolvers *)

Abbreviation ScriptProps := Obj (only parsing).

Definition handledProps : list string :=
  ["src"; "strategy"; "dangerouslySetInnerHTML"; "children"; "onLoad"; "onError"].

Definition handled (k : string) : bool := bool_decide (k ∈ handledProps).

(** [const { strategy = ScriptStrategy.postHydrate } = props] *)
Definition props_strategy (props : ScriptProps) : Value :=
  with_default postHydrate (obj_get "strategy" props).

(** [const { __html: dangerousHTML = `` } = dangerouslySetInnerHTML || {}] *)
Definition dangerousHTML_of (d : Value) : Value :=
  match d with
  | VHtml (Some s) => VString s
  | _ => VString ""
  end.

Definition resolveInlineScript (props : ScriptProps) : Value :=
  let dangerouslySetInnerHTML := obj_get "dangerouslySetInnerHTML" props in
  let children := with_default (VString "") (obj_get "children" props) in
  let dangerousHTML := dangerousHTML_of dangerouslySetInnerHTML in
  js_or dangerousHTML children.

Definition resolveAttributes (props : ScriptProps) : Obj :=
  fold_left
    (fun attributes kv => if handled kv.1 then attributes else obj_set kv.1 kv.2 attributes)
    props [].

(** ** Render output of [Script] *)

Inductive ReactElement : Type :=
  | Fragment
  | ScriptElement (attributes : Obj) (children : option Value).

Definition partytown_type : Value := VString "text/partytown".

Definition Script_render (props : ScriptProps) : ReactElement :=
  let src := obj_get "src" props in
  let strategy := props_strategy props in
  if strict_eq strategy preHydrate || strict_eq strategy experimentalPartytown then
    let inlineScript := resolveInlineScript props in
    let attributes := resolveAttributes props in
    let attributes :=
      if strict_eq strategy experimentalPartytown
      then obj_set "type" partytown_type attributes
      else attributes in
    if truthy inlineScript then
      ScriptElement
        (obj_spread [("async", VBool true); ("data-strategy", strategy)] attributes)
        (Some (resolveInlineScript props))
    else
      ScriptElement
        (obj_spread [("async", VBool true); ("src", src); ("data-strategy", strategy)]
                    attributes)
        None
  else Fragment.

(** ** The host: document, performance timeline, idle scheduler

    An element is addressed by a handle (its index in [elements]); its
    content attributes are a finite map.  The reflecting properties [id],
    [dataset.strategy] and [src] write the attributes [id],
    [data-strategy] and [src].  Values are stored as passed to the host. *)

Abbreviation handle := nat (only parsing).

Record Element : Type := mkElement {
  attrs : gmap string Value;
  textContent : option Value;
  listeners : list (string * Value)
}.

Definition new_script : Element :=
  {| attrs := ∅; textContent := None; listeners := [] |}.

Definition set_attr (k : string) (v : Value) (e : Element) : Element :=
  {| attrs := <[k := v]> (attrs e);
     textContent := textContent e;
     listeners := listeners e |}.

Definition set_text (v : Value) (e : Element) : Element :=
  {| attrs := attrs e; textContent := Some v; listeners := listeners e |}.

(** A listener already registered for the same event is not added twice. *)
Definition add_listener (kind : string) (fn : Value) (e : Element) : Element :=
  {| attrs := attrs e;
     textContent := textContent e;
     listeners :=
       if bool_decide ((kind, fn) ∈ listeners e) then listeners e
       else listeners e ++ [(kind, fn)] |}.

Definition remove_listener (kind : string) (fn : Value) (e : Element) : Element :=
  {| attrs := attrs e;
     textContent := textContent e;
     listeners := filter (fun l => l ≠ (kind, fn)) (listeners e) |}.

(** Every call the engine makes on the host, in the order it makes them. *)
Inductive HostCall : Type :=
  | CreateElement (tag : string) (h : handle)
  | SetId (h : handle) (v : Value)
  | SetDatasetStrategy (h : handle) (v : Value)
  | SetAttribute (h : handle) (k : string) (v : Value)
  | SetTextContent (h : handle) (v : Value)
  | SetSrc (h : handle) (v : Value)
  | AddEventListener (h : handle) (kind : string) (fn : Value)
  | RemoveEventListener (h : handle) (kind : string) (fn : Value)
  | AppendChild (h : handle)
  | RemoveNode (h : handle)
  | GetEntriesByName (name : string)
  | RequestIdleCallback (closure : nat).

#[global] Instance HostCall_eq_dec : EqDecision HostCall.
Proof. solve_decision. Defined.

(** The calls that change the document. *)
Definition is_mutation (c : HostCall) : bool :=
  match c with
  | GetEntriesByName _ | RequestIdleCallback _ => false
  | _ => true
  end.

Definition is_append (c : HostCall) : bool :=
  match c with AppendChild _ => true | _ => false end.

(** The closure one run of the mount effect creates: the props it
    captured, its local [script] variable ([None] for [undefined] and
    [null], which [?.] does not tell apart) and whether its cleanup is
    still to run. *)
Record Closure : Type := mkClosure {
  cl_props : ScriptProps;
  cl_script : option handle;
  cl_mounted : bool
}.

Record World : Type := mkWorld {
  scriptCache : gset Value;
  elements : list Element;
  body : list handle;
  location_href : string;
  perfEntries : list string;
  closures : list Closure;
  idleCallbacks : list nat;
  calls : list HostCall
}.

Definition with_cache (c : gset Value) (w : World) : World :=
  mkWorld c (elements w) (body w) (location_href w) (perfEntries w)
          (closures w) (idleCallbacks w) (calls w).
Definition with_elements (es : list Element) (w : World) : World :=
  mkWorld (scriptCache w) es (body w) (location_href w) (perfEntries w)
          (closures w) (idleCallbacks w) (calls w).
Definition with_body (b : list handle) (w : World) : World :=
  mkWorld (scriptCache w) (elements w) b (location_href w) (perfEntries w)
          (closures w) (idleCallbacks w) (calls w).
Definition with_closures (cs : list Closure) (w : World) : World :=
  mkWorld (scriptCache w) (elements w) (body w) (location_href w) (perfEntries w)
          cs (idleCallbacks w) (calls w).
Definition with_idleCallbacks (q : list nat) (w : World) : World :=
  mkWorld (scriptCache w) (elements w) (body w) (location_href w) (perfEntries w)
          (closures w) q (calls w).
Definition with_calls (cs : list HostCall) (w : World) : World :=
  mkWorld (scriptCache w) (elements w) (body w) (location_href w) (perfEntries w)
          (closures w) (idleCallbacks w) cs.

(** A freshly loaded page at [href] whose performance timeline holds
    [entries]. *)
Definition fresh_page (href : string) (entries : list string) : World :=
  mkWorld ∅ [] [] href entries [] [] [].

(** ** The state monad the engine runs in *)

Definition M (A : Type) : Type := World -> A * World.

#[global] Instance M_ret : MRet M := fun A x w => (x, w).
#[global] Instance M_bind : MBind M :=
  fun A B f m w => let '(x, w') := m w in f x w'.

Definition get_world : M World := fun w => (w, w).
Definition modify (f : World -> World) : M unit := fun w => ((), f w).
Definition when (b : bool) (m : M unit) : M unit := if b then m else mret ().

Fixpoint for_each {A : Type} (l : list A) (f : A -> M unit) : M unit :=
  match l with
  | [] => mret ()
  | x :: l' => f x;; for_each l' f
  end.

Definition host_call (c : HostCall) : M unit :=
  modify (fun w => with_calls (calls w ++ [c]) w).

Definition update_element (h : handle) (f : Element -> Element) : M unit :=
  modify (fun w => with_elements (alter f h (elements w)) w).

Definition createElement (tag : string) : M handle :=
  w ← get_world;
  let h := length (elements w) in
  host_call (CreateElement tag h);;
  modify (fun w => with_elements (elements w ++ [new_script]) w);;
  mret h.

Definition set_id (h : handle) (v : Value) : M unit :=
  host_call (SetId h v);; update_element h (set_attr "id" v).

Definition set_dataset_strategy (h : handle) (v : Value) : M unit :=
  host_call (SetDatasetStrategy h v);; update_element h (set_attr "data-strategy" v).

Definition setAttribute (h : handle) (k : string) (v : Value) : M unit :=
  host_call (SetAttribute h k v);; update_element h (set_attr k v).

Definition set_textContent (h : handle) (v : Value) : M unit :=
  host_call (SetTextContent h v);; update_element h (set_text v).

Definition set_src (h : handle) (v : Value) : M unit :=
  host_call (SetSrc h v);; update_element h (set_attr "src" v).

Definition addEventListener (h : handle) (kind : string) (fn : Value) : M unit :=
  host_call (AddEventListener h kind fn);; update_element h (add_listener kind fn).

Definition removeEventListener (h : handle) (kind : string) (fn : Value) : M unit :=
  host_call (RemoveEventListener h kind fn);; update_element h (remove_listener kind fn).

(** [document.body.appendChild(node)]: the node becomes the last child
    (a node already in the body is moved). *)
Definition appendChild (h : handle) : M unit :=
  host_call (AppendChild h);;
  modify (fun w => with_body (filter (fun h' => h' ≠ h) (body w) ++ [h]) w).

(** [node.remove()] *)
Definition remove_node (h : handle) : M unit :=
  host_call (RemoveNode h);;
  modify (fun w => with_body (filter (fun h' => h' ≠ h) (body w)) w).

(** [performance.getEntriesByName(name)] *)
Definition getEntriesByName (name : string) : M (list string) :=
  host_call (GetEntriesByName name);;
  w ← get_world;
  mret (filter (fun n => n = name) (perfEntries w)).

Definition requestIdleCallback (closure : nat) : M unit :=
  host_call (RequestIdleCallback closure);;
  modify (fun w => with_idleCallbacks (idleCallbacks w ++ [closure]) w).

(** [scriptCache.has] and [scriptCache.add] *)
Definition scriptCache_has (k : Value) : M bool :=
  w ← get_world; mret (bool_decide (k ∈ scriptCache w)).

Definition scriptCache_add (k : Value) : M unit :=
  modify (fun w => with_cache ({[k]} ∪ scriptCache w) w).

(** ** [injectScript] *)

Definition injectScript (props : ScriptProps) : M (option handle) :=
  let id := obj_get "id" props in
  let src := obj_get "src" props in
  let strategy := props_strategy props in
  let onLoad := obj_get "onLoad" props in
  let onError := obj_get "onError" props in
  hit ← scriptCache_has (js_or id src);
  if hit : bool then mret None
  else
    let inlineScript := resolveInlineScript props in
    let attributes := resolveAttributes props in
    script ← createElement "script";
    when (truthy id) (set_id script id);;
    set_dataset_strategy script strategy;;
    for_each attributes (fun kv => setAttribute script kv.1 kv.2);;
    when (truthy inlineScript) (set_textContent script inlineScript);;
    when (truthy src) (set_src script src);;
    when (truthy onLoad) (addEventListener script "load" onLoad);;
    when (truthy onError) (addEventListener script "error" onError);;
    appendChild script;;
    scriptCache_add (js_or id src);;
    mret (Some script).

(** ** The mount effect of [Script] and its cleanup

    [useEffect(..., [])] runs its callback once per mount.  Each run has a
    [script] variable of its own, shared by the idle callback it may
    schedule and by the cleanup it returns: a [Closure] in the world. *)

Definition new_closure (props : ScriptProps) : M nat :=
  w ← get_world;
  modify (fun w => with_closures (closures w ++ [mkClosure props None true]) w);;
  mret (length (closures w)).

(** [script = r] *)
Definition assign_script (c : nat) (r : option handle) : M unit :=
  modify (fun w =>
    with_closures
      (alter (fun cl => mkClosure (cl_props cl) r (cl_mounted cl)) c (closures w)) w).

(** The body of the callback handed to [requestIdleCallback]. *)
Definition idle_callback (c : nat) (props : ScriptProps) : M unit :=
  script ← injectScript props;
  assign_script c script.

Definition Script_effect (props : ScriptProps) : M nat :=
  c ← new_closure props;
  let strategy := props_strategy props in
  (if strict_eq strategy preHydrate then
     w ← get_world;
     entries ← getEntriesByName (location_href w);
     if bool_decide (length entries = 0) then
       script ← injectScript props;
       assign_script c script
     else mret ()
   else if strict_eq strategy postHydrate then
     script ← injectScript props;
     assign_script c script
   else if strict_eq strategy idle then
     requestIdleCallback c
   else mret ());;
  mret c.

(** [script?.m(...)] *)
Definition opt_call (script : option handle) (m : handle -> M unit) : M unit :=
  match script with
  | Some h => m h
  | None => mret ()
  end.

(** The function the effect returns, over the closure's [script]. *)
Definition cleanup (props : ScriptProps) (script : option handle) : M unit :=
  let onLoad := obj_get "onLoad" props in
  let onError := obj_get "onError" props in
  when (truthy onLoad) (opt_call script (fun h => removeEventListener h "load" onLoad));;
  when (truthy onError) (opt_call script (fun h => removeEventListener h "error" onError));;
  opt_call script remove_node.

(** ** Lifecycle

    The host decides what happens next: a component mounts, a mounted one
    unmounts (once), or a pending idle callback fires (any of them). *)

Definition Script_unmount (c : nat) : M unit :=
  w ← get_world;
  match closures w !! c with
  | Some cl =>
      if cl_mounted cl then
        modify (fun w =>
          with_closures
            (alter (fun cl => mkClosure (cl_props cl) (cl_script cl) false) c (closures w)) w);;
        cleanup (cl_props cl) (cl_script cl)
      else mret ()
  | None => mret ()
  end.

Definition idle_fires (n : nat) : M unit :=
  w ← get_world;
  match idleCallbacks w !! n with
  | Some c =>
      modify (fun w => with_idleCallbacks (delete n (idleCallbacks w)) w);;
      match closures w !! c with
      | Some cl => idle_callback c (cl_props cl)
      | None => mret ()
      end
  | None => mret ()
  end.

Inductive Event : Type :=
  | Mount (props : ScriptProps)
  | Unmount (c : nat)
  | IdleFires (n : nat).

Definition step (e : Event) : M unit :=
  match e with
  | Mount props => Script_effect props;; mret ()
  | Unmount c => Script_unmount c
  | IdleFires n => idle_fires n
  end.

Definition exec {A : Type} (m : M A) (w : World) : World := (m w).2.

Definition run (es : list Event) (w : World) : World :=
  fold_left (fun w e => exec (step e) w) es w.

(** * Observers, closed forms and scenarios

    What the properties below are stated with. *)

(** ** Observers of props and world *)

(** The key the cache is asked about and given: [id || src]. *)
Definition script_key (props : ScriptProps) : Value :=
  js_or (obj_get "id" props) (obj_get "src" props).

(** [alreadyLoaded(url)]: the timeline has an entry named [url]. *)
Definition alreadyLoaded (w : World) (url : string) : bool :=
  negb (bool_decide (length (filter (fun n => n = url) (perfEntries w)) = 0)).

(** Number of [appendChild] calls made so far. *)
Definition appended (w : World) : nat := length (filter is_append (calls w)).

Definition is_query (c : HostCall) : bool :=
  match c with GetEntriesByName _ => true | _ => false end.

(** The timeline queries made so far. *)
Definition queries (w : World) : list HostCall := filter is_query (calls w).

(** The document mutations made so far. *)
Definition mutations (w : World) : list HostCall := filter is_mutation (calls w).

(** In a document whose body only holds created elements, the element
    [injectScript] appends is new to the body. *)
Definition body_wf (w : World) : Prop :=
  Forall (fun h => h < length (elements w)) (body w).

(** A computation that never takes a key out of [scriptCache]. *)
Definition cache_mono {A : Type} (m : M A) : Prop :=
  forall w, scriptCache w ⊆ scriptCache (m w).2.

Definition strategy_eqb (s1 s2 : ScriptStrategy) : bool :=
  match s1, s2 with
  | preHydrate, preHydrate | postHydrate, postHydrate | idle, idle
  | experimentalPartytown, experimentalPartytown => true
  | _, _ => false
  end.

(** ** What the operations do, in closed form *)

Definition cond {A : Type} (b : bool) (f : A -> A) (x : A) : A := if b then f x else x.

Definition opt_list {A : Type} (b : bool) (x : A) : list A := if b then [x] else [].

Definition set_attrs (attributes : Obj) (e : Element) : Element :=
  fold_left (fun e kv => set_attr kv.1 kv.2 e) attributes e.

(** The element [injectScript] has built when it appends it. *)
Definition injected_element (props : ScriptProps) : Element :=
  let id := obj_get "id" props in
  let src := obj_get "src" props in
  let onLoad := obj_get "onLoad" props in
  let onError := obj_get "onError" props in
  let inlineScript := resolveInlineScript props in
  cond (truthy onError) (add_listener "error" onError)
    (cond (truthy onLoad) (add_listener "load" onLoad)
      (cond (truthy src) (set_attr "src" src)
        (cond (truthy inlineScript) (set_text inlineScript)
          (set_attrs (resolveAttributes props)
            (set_attr "data-strategy" (props_strategy props)
              (cond (truthy id) (set_attr "id" id) new_script)))))).

(** The host calls of a call of [injectScript] that creates element [h]. *)
Definition inject_calls (props : ScriptProps) (h : handle) : list HostCall :=
  let id := obj_get "id" props in
  let src := obj_get "src" props in
  let onLoad := obj_get "onLoad" props in
  let onError := obj_get "onError" props in
  let inlineScript := resolveInlineScript props in
  [CreateElement "script" h]
  ++ opt_list (truthy id) (SetId h id)
  ++ [SetDatasetStrategy h (props_strategy props)]
  ++ map (fun kv => SetAttribute h kv.1 kv.2) (resolveAttributes props)
  ++ opt_list (truthy inlineScript) (SetTextContent h inlineScript)
  ++ opt_list (truthy src) (SetSrc h src)
  ++ opt_list (truthy onLoad) (AddEventListener h "load" onLoad)
  ++ opt_list (truthy onError) (AddEventListener h "error" onError)
  ++ [AppendChild h].

Definition injected_world (props : ScriptProps) (w : World) : World :=
  let h := length (elements w) in
  mkWorld ({[script_key props]} ∪ scriptCache w)
          (elements w ++ [injected_element props])
          (filter (fun h' => h' ≠ h) (body w) ++ [h])
          (location_href w) (perfEntries w) (closures w) (idleCallbacks w)
          (calls w ++ inject_calls props h).

(** The world once [injectScript props] has run and its result has been
    assigned to the [script] variable of closure [c]. *)
Definition inject_assign (c : nat) (props : ScriptProps) (w : World) : World :=
  let '(r, w') := injectScript props w in
  with_closures
    (alter (fun cl => mkClosure (cl_props cl) r (cl_mounted cl)) c (closures w')) w'.

(** The world right after the effect's closure has been created. *)
Definition closure_created (props : ScriptProps) (w : World) : World :=
  with_closures (closures w ++ [mkClosure props None true]) w.

(** The listeners [injectScript] attaches: one per supplied handler. *)
Definition attached_listeners (props : ScriptProps) : list (string * Value) :=
  let onLoad := obj_get "onLoad" props in
  let onError := obj_get "onError" props in
  opt_list (truthy onLoad) ("load", onLoad) ++ opt_list (truthy onError) ("error", onError).

(** The host calls of the cleanup of a closure holding element [h]. *)
Definition cleanup_calls (props : ScriptProps) (h : handle) : list HostCall :=
  let onLoad := obj_get "onLoad" props in
  let onError := obj_get "onError" props in
  opt_list (truthy onLoad) (RemoveEventListener h "load" onLoad)
  ++ opt_list (truthy onError) (RemoveEventListener h "error" onError)
  ++ [RemoveNode h].

Definition detach_listeners (props : ScriptProps) (e : Element) : Element :=
  let onLoad := obj_get "onLoad" props in
  let onError := obj_get "onError" props in
  cond (truthy onError) (remove_listener "error" onError)
    (cond (truthy onLoad) (remove_listener "load" onLoad) e).

(** ** The resolver in the words of the specification *)

(** The inline body as the specification words it: the inner value of the
    raw-HTML setter when present and non-empty, else the children when
    present, else the empty string. *)
Definition inline_body_spec (props : ScriptProps) : Value :=
  let children := obj_get "children" props in
  let children_or_empty :=
    if decide (children = VUndefined) then VString "" else children in
  match obj_get "dangerouslySetInnerHTML" props with
  | VHtml (Some html) => if decide (html = "") then children_or_empty else VString html
  | _ => children_or_empty
  end.

(** ** Descriptors and pages of the scenarios *)

(** A freshly loaded page with an empty timeline (reached by client-side
    navigation), and one whose timeline has an entry named [a.js]. *)
Definition page0 : World := fresh_page "https://example.com/" [].

Definition page_with_a : World := fresh_page "https://example.com/" ["a.js"].

(** Scenario A of the specification: the descriptor mounted twice. *)
Definition scenario_A : ScriptProps :=
  [("src", VString "a.js"); ("strategy", postHydrate : Value)].

(** Scenario C of the specification. *)
Definition scenario_C : ScriptProps :=
  [("src", VString "b.js"); ("strategy", experimentalPartytown : Value)].

(** Scenario D of the specification. *)
Definition scenario_D : ScriptProps :=
  [("src", VString "c.js"); ("strategy", idle : Value)].

(** A pre-hydrate script with a source. *)
Definition preHydrate_a : ScriptProps :=
  [("src", VString "a.js"); ("strategy", preHydrate : Value)].

(** Two different inline scripts, neither with an id nor a source. *)
Definition inline_a : ScriptProps := [("children", VString "a()")].
Definition inline_b : ScriptProps := [("children", VString "b()")].

(** A partytown script that asks for [type="module"]. *)
Definition partytown_module : ScriptProps :=
  [("src", VString "b.js"); ("strategy", experimentalPartytown : Value);
   ("type", VString "module")].

(** A post-hydrate script with an id, a handler and a passthrough
    attribute. *)
Definition with_passthrough : ScriptProps :=
  [("id", VString "analytics"); ("src", VString "a.js");
   ("crossOrigin", VString "anonymous"); ("onLoad", VHandler 1)].

(** ** Invariants of a page and further descriptors *)

(** Closure [c] holds element [h] in its [script] variable. *)
Definition owns (w : World) (c : nat) (h : handle) : Prop :=
  exists cl, closures w !! c = Some cl /\ cl_script cl = Some h.

(** What every world reached from a freshly loaded page satisfies: one
    cached key, one [appendChild] and one created element per insertion;
    a body of distinct, created elements; every owned element created,
    and owned by one closure only. *)
Definition page_inv (w : World) : Prop :=
  size (scriptCache w) = length (elements w)
  /\ appended w = length (elements w)
  /\ body_wf w
  /\ NoDup (body w)
  /\ (forall c h, owns w c h -> h < length (elements w))
  /\ (forall c1 c2 h, owns w c1 h -> owns w c2 h -> c1 = c2).

(** The same source, once under an explicit id and once without. *)
Definition with_id_x : ScriptProps :=
  [("id", VString "x"); ("src", VString "a.js")].

Definition only_src : ScriptProps := [("src", VString "a.js")].

(** A pre-hydrate descriptor with both a source and an inline body. *)
Definition inline_and_src : ScriptProps :=
  [("src", VString "a.js"); ("strategy", preHydrate : Value);
   ("children", VString "init()")].

(** A descriptor that supplies its own [data-strategy] and [async]. *)
Definition own_tag : ScriptProps :=
  [("src", VString "a.js"); ("strategy", preHydrate : Value);
   ("data-strategy", VString "custom"); ("async", VBool false)].

(** Two idle descriptors for the same source, with different handlers. *)
Definition idle_first : ScriptProps :=
  [("src", VString "c.js"); ("strategy", idle : Value); ("onLoad", VHandler 1)].

Definition idle_second : ScriptProps :=
  [("src", VString "c.js"); ("strategy", idle : Value); ("onLoad", VHandler 2)].

Definition is_add_listener (c : HostCall) : bool :=
  match c with AddEventListener _ _ _ => true | _ => false end.

(** A partytown descriptor with both handlers. *)
Definition partytown_handlers : ScriptProps :=
  [("src", VString "b.js"); ("strategy", experimentalPartytown : Value);
   ("onLoad", VHandler 1); ("onError", VHandler 2)].

(** * Properties *)

(** ** What one call of [injectScript] does, in closed form *)

Lemma alter_last {A : Type} (f : A -> A) (l : list A) (x : A) :
  alter f (length l) (l ++ [x]) = l ++ [f x].
Proof.
  replace (length l) with (length l + 0) by lia.
  by rewrite alter_app_r.
Qed.

Lemma for_each_setAttribute (h : handle) (attributes : Obj) (w : World) :
  for_each attributes (fun kv => setAttribute h kv.1 kv.2) w =
  ((), with_elements (alter (set_attrs attributes) h (elements w))
         (with_calls (calls w ++ map (fun kv => SetAttribute h kv.1 kv.2) attributes) w)).
Proof.
  revert w. induction attributes as [|[k v] attributes IH]; intros w.
  - destruct w; cbn. rewrite app_nil_r.
    unfold with_elements, with_calls; cbn. f_equal. f_equal.
    unfold set_attrs; cbn. symmetry. apply list_alter_id. done.
  - cbn [for_each]. unfold mbind, M_bind at 1.
    unfold setAttribute at 1. unfold host_call, update_element, modify, mbind, M_bind.
    rewrite IH. destruct w; cbn. unfold with_elements, with_calls; cbn.
    f_equal. f_equal.
    + by rewrite list_alter_alter_eq.
    + by rewrite <- app_assoc.
Qed.

Lemma when_logged_update (b : bool) (c : HostCall) (h : handle)
    (f : Element -> Element) (w : World) :
  when b (host_call c;; update_element h f) w =
  ((), with_elements (alter (cond b f) h (elements w))
         (with_calls (calls w ++ opt_list b c) w)).
Proof.
  destruct b, w; cbn; unfold with_elements, with_calls; cbn.
  - done.
  - rewrite app_nil_r. f_equal. f_equal. symmetry. by apply list_alter_id.
Qed.

Lemma logged_update (c : HostCall) (h : handle) (f : Element -> Element) (w : World) :
  (host_call c;; update_element h f) w =
  ((), with_elements (alter f h (elements w)) (with_calls (calls w ++ [c]) w)).
Proof. apply (when_logged_update true). Qed.

(** Normalise a world built by the setters into constructor form. *)
Ltac world_norm :=
  cbn [fst snd with_cache with_elements with_body with_closures with_idleCallbacks
       with_calls scriptCache elements body location_href perfEntries closures
       idleCallbacks calls].

Lemma bind_run {A B : Type} (m : M A) (f : A -> M B) (w : World) :
  (m ≫= f) w = f (m w).1 (m w).2.
Proof. unfold mbind, M_bind. by destruct (m w). Qed.

Lemma createElement_run (tag : string) (w : World) :
  createElement tag w =
  (length (elements w),
   with_elements (elements w ++ [new_script])
     (with_calls (calls w ++ [CreateElement tag (length (elements w))]) w)).
Proof. reflexivity. Qed.

Lemma appendChild_run (h : handle) (w : World) :
  appendChild h w =
  ((), with_body (filter (fun h' => h' ≠ h) (body w) ++ [h])
         (with_calls (calls w ++ [AppendChild h]) w)).
Proof. reflexivity. Qed.

Lemma injectScript_hit (props : ScriptProps) (w : World) :
  script_key props ∈ scriptCache w -> injectScript props w = (None, w).
Proof.
  intros Hin. unfold injectScript. rewrite bind_run. cbn [scriptCache_has fst snd].
  fold (script_key props). unfold scriptCache_has, get_world. rewrite bind_run.
  cbn [fst snd]. unfold mret at 1, M_ret at 1. cbn [fst snd].
  by rewrite bool_decide_eq_true_2.
Qed.

Lemma injectScript_miss (props : ScriptProps) (w : World) :
  script_key props ∉ scriptCache w ->
  injectScript props w = (Some (length (elements w)), injected_world props w).
Proof.
  intros Hin. unfold injectScript. fold (script_key props).
  rewrite bind_run. unfold scriptCache_has at 1 2, get_world. rewrite bind_run.
  cbn [fst snd]. unfold mret at 1 2, M_ret at 1 2. cbn [fst snd].
  rewrite bool_decide_eq_false_2 by done.
  unfold set_id, set_dataset_strategy, set_textContent, set_src, addEventListener.
  destruct w as [c es b hr pe cl iq cs]. world_norm.
  rewrite bind_run, createElement_run; world_norm.
  rewrite bind_run, when_logged_update; world_norm.
  rewrite bind_run, logged_update; world_norm.
  rewrite bind_run, for_each_setAttribute; world_norm.
  do 4 (rewrite bind_run, when_logged_update; world_norm).
  rewrite bind_run, appendChild_run; world_norm.
  rewrite bind_run. unfold scriptCache_add, modify, mret, M_ret; world_norm.
  unfold injected_world, injected_element, inject_calls; world_norm.
  rewrite !list_alter_alter_eq, alter_last, <- !app_assoc. reflexivity.
Qed.

(** ** The cache only grows *)

Create HintDb cache_mono.

Lemma cache_mono_ret {A : Type} (x : A) : cache_mono (mret x : M A).
Proof. intros w. cbn. done. Qed.

Lemma cache_mono_bind {A B : Type} (m : M A) (f : A -> M B) :
  cache_mono m -> (forall x, cache_mono (f x)) -> cache_mono (m ≫= f).
Proof.
  intros Hm Hf w. rewrite bind_run.
  etrans; [apply Hm | apply Hf].
Qed.

Lemma cache_mono_get_world : cache_mono get_world.
Proof. intros w. done. Qed.

Lemma cache_mono_modify (f : World -> World) :
  (forall w, scriptCache (f w) = scriptCache w) -> cache_mono (modify f).
Proof. intros Hf w. cbn. by rewrite Hf. Qed.

Lemma cache_mono_when (b : bool) (m : M unit) : cache_mono m -> cache_mono (when b m).
Proof. destruct b; cbn [when]; [done | intros _; apply cache_mono_ret]. Qed.

Lemma cache_mono_opt_call (s : option handle) (m : handle -> M unit) :
  (forall h, cache_mono (m h)) -> cache_mono (opt_call s m).
Proof. destruct s; cbn [opt_call]; [auto | intros _; apply cache_mono_ret]. Qed.

Lemma cache_mono_for_each {A : Type} (l : list A) (f : A -> M unit) :
  (forall x, cache_mono (f x)) -> cache_mono (for_each l f).
Proof.
  intros Hf. induction l as [|x l IH]; cbn [for_each].
  - apply cache_mono_ret.
  - apply cache_mono_bind; auto.
Qed.

Lemma cache_mono_scriptCache_add (k : Value) : cache_mono (scriptCache_add k).
Proof. intros w. cbn. set_solver. Qed.

#[local] Hint Resolve cache_mono_ret cache_mono_bind cache_mono_get_world
  cache_mono_when cache_mono_opt_call cache_mono_for_each
  cache_mono_scriptCache_add : cache_mono.

#[local] Hint Extern 1 (cache_mono (modify _)) =>
  apply cache_mono_modify; intros []; reflexivity : cache_mono.

(** Unfold the engine's operations down to [modify], [get_world], binds. *)
Ltac mono_unfold :=
  unfold host_call, update_element, createElement, set_id, set_dataset_strategy,
    setAttribute, set_textContent, set_src, addEventListener, removeEventListener,
    appendChild, remove_node, getEntriesByName, requestIdleCallback,
    scriptCache_has, new_closure, assign_script.

Lemma cache_mono_injectScript (props : ScriptProps) : cache_mono (injectScript props).
Proof.
  unfold injectScript. mono_unfold.
  apply cache_mono_bind; [auto with cache_mono|]. intros [].
  - auto with cache_mono.
  - repeat (apply cache_mono_bind; [auto 10 with cache_mono | intros ?]).
    auto with cache_mono.
Qed.

#[local] Hint Resolve cache_mono_injectScript : cache_mono.

Lemma cache_mono_cleanup (props : ScriptProps) (s : option handle) :
  cache_mono (cleanup props s).
Proof. unfold cleanup. mono_unfold. auto 10 with cache_mono. Qed.

Lemma cache_mono_Script_effect (props : ScriptProps) : cache_mono (Script_effect props).
Proof.
  unfold Script_effect, idle_callback. mono_unfold.
  apply cache_mono_bind; [auto 10 with cache_mono | intros c].
  apply cache_mono_bind; [|auto with cache_mono].
  repeat case_match; auto 10 with cache_mono.
  apply cache_mono_bind; [auto with cache_mono | intros w0].
  apply cache_mono_bind; [auto 10 with cache_mono | intros entries].
  case_match; auto 10 with cache_mono.
Qed.

Lemma cache_mono_Script_unmount (c : nat) : cache_mono (Script_unmount c).
Proof.
  unfold Script_unmount.
  apply cache_mono_bind; [auto with cache_mono | intros w0].
  repeat case_match; auto 10 using cache_mono_cleanup with cache_mono.
Qed.

Lemma cache_mono_idle_fires (n : nat) : cache_mono (idle_fires n).
Proof.
  unfold idle_fires, idle_callback. mono_unfold.
  apply cache_mono_bind; [auto with cache_mono | intros w0].
  repeat case_match; auto 10 with cache_mono.
Qed.

Lemma cache_mono_step (e : Event) : cache_mono (step e).
Proof.
  destruct e; cbn [step];
    auto using cache_mono_Script_effect, cache_mono_Script_unmount,
      cache_mono_idle_fires with cache_mono.
Qed.

Lemma run_cache_mono (es : list Event) (w : World) :
  scriptCache w ⊆ scriptCache (run es w).
Proof.
  revert w. induction es as [|e es IH]; intros w; cbn [run fold_left].
  - done.
  - etrans; [apply (cache_mono_step e w) | apply IH].
Qed.

(** ** Dedup by identity key *)

Lemma filter_append_setAttribute (h : handle) (attributes : Obj) :
  filter is_append (map (fun kv => SetAttribute h kv.1 kv.2) attributes) = [].
Proof. induction attributes as [|[k v] l IH]; [done | cbn; done]. Qed.

Lemma filter_append_inject_calls (props : ScriptProps) (h : handle) :
  filter is_append (inject_calls props h) = [AppendChild h].
Proof.
  unfold inject_calls. rewrite !filter_app, filter_append_setAttribute.
  repeat match goal with |- context [truthy ?v] => destruct (truthy v) end;
    reflexivity.
Qed.

Lemma appended_injected_world (props : ScriptProps) (w : World) :
  appended (injected_world props w) = S (appended w).
Proof.
  unfold appended, injected_world. cbn [calls].
  rewrite filter_app, filter_append_inject_calls, length_app. cbn. lia.
Qed.

Lemma filter_ne_fresh (n : nat) (b : list handle) :
  Forall (fun h => h < n) b -> filter (fun h' => h' ≠ n) b = b.
Proof.
  induction 1 as [|h b Hh Hb IH]; [done|].
  rewrite filter_cons_True by lia. by f_equal.
Qed.

Lemma body_wf_filter_fresh (w : World) :
  body_wf w -> filter (fun h' => h' ≠ length (elements w)) (body w) = body w.
Proof. apply filter_ne_fresh. Qed.

(** C10: [injectScript] returns [null] exactly when the cache holds the
    derived key at call time, the key being the id when the id is a
    non-empty string and the source otherwise.  When it returns [null] the
    world is untouched (no element, no attribute, same cache); otherwise
    the element it returns is the fresh one it built and appended as the
    last child of the body. *)
Theorem injectScript_null_iff_cached (props : ScriptProps) (w : World) :
  script_key props =
    match obj_get "id" props with
    | VString s => if String.eqb s "" then obj_get "src" props else VString s
    | VUndefined => obj_get "src" props
    | other => if truthy other then other else obj_get "src" props
    end
  /\ match injectScript props w with
     | (None, w') => script_key props ∈ scriptCache w /\ w' = w
     | (Some script, w') =>
         (script_key props ∉ scriptCache w)
         /\ script = length (elements w)
         /\ elements w' = elements w ++ [injected_element props]
         /\ last (body w') = Some script
         /\ filter is_append (inject_calls props script) = [AppendChild script]
         /\ calls w' = calls w ++ inject_calls props script
         /\ scriptCache w' = {[script_key props]} ∪ scriptCache w
     end.
Proof.
  split.
  - unfold script_key, js_or.
    destruct (obj_get "id" props) as [|s|b|o|r]; cbn [truthy]; try reflexivity.
    by destruct (String.eqb s "").
  - destruct (decide (script_key props ∈ scriptCache w)) as [Hin|Hout].
    + by rewrite injectScript_hit.
    + rewrite injectScript_miss by done.
      repeat split; try done.
      * unfold injected_world; cbn [body]. by rewrite last_snoc.
      * apply filter_append_inject_calls.
Qed.

(** C1: two calls of [injectScript] whose props derive the same key [K].
    The second call always returns [null] and changes nothing, and [K] is
    in the cache afterwards.  Where [K] was not cached before, the first
    call creates and appends one element, so the two calls together made
    one [appendChild] and added one entry ([K]) to the cache; where [K]
    was cached already, neither call does anything.  Whatever happens
    afterwards (mounts, unmounts, idle callbacks), [K] stays cached and a
    call with key [K] is a no-op. *)
Theorem dedup_idempotence (K : Value) (p1 p2 : ScriptProps) (w : World) :
  script_key p1 = K -> script_key p2 = K ->
  let w1 := exec (injectScript p1) w in
  let w2 := exec (injectScript p2) w1 in
  injectScript p2 w1 = (None, w1)
  /\ w2 = w1
  /\ scriptCache w2 = {[K]} ∪ scriptCache w
  /\ (if bool_decide (K ∈ scriptCache w) then w2 = w
      else
        (injectScript p1 w).1 = Some (length (elements w))
        /\ appended w2 = S (appended w)
        /\ length (elements w2) = S (length (elements w))
        /\ last (body w2) = Some (length (elements w))
        /\ (body_wf w -> body w2 = body w ++ [length (elements w)])
        /\ size (scriptCache w2) = S (size (scriptCache w)))
  /\ forall (es : list Event) (p : ScriptProps),
       script_key p = K ->
       K ∈ scriptCache (run es w2)
       /\ injectScript p (run es w2) = (None, run es w2).
Proof.
  intros H1 H2 w1 w2.
  assert (Hw1 : w1 = if bool_decide (K ∈ scriptCache w) then w
                     else injected_world p1 w).
  { unfold w1, exec. case_bool_decide as HK.
    - rewrite injectScript_hit by (by rewrite H1). done.
    - rewrite injectScript_miss by (by rewrite H1). done. }
  assert (HK1 : K ∈ scriptCache w1).
  { rewrite Hw1. case_bool_decide as HK; [done|].
    unfold injected_world; cbn [scriptCache]. rewrite H1. set_solver. }
  assert (Hw2 : w2 = w1).
  { unfold w2, exec. rewrite injectScript_hit by (by rewrite H2). done. }
  rewrite Hw2.
  split; [apply injectScript_hit; by rewrite H2|].
  split; [done|]. split; [|split].
  - rewrite Hw1. case_bool_decide as HK.
    + symmetry. apply subseteq_union_1_L. by apply singleton_subseteq_l.
    + unfold injected_world; cbn [scriptCache]. by rewrite H1.
  - rewrite Hw1. case_bool_decide as HK; [done|].
    rewrite injectScript_miss by (by rewrite H1).
    unfold injected_world; cbn [fst elements body scriptCache].
    split; [done|]. split; [apply appended_injected_world|].
    split; [rewrite length_app; cbn; lia|].
    split; [by rewrite last_snoc|].
    split; [intros Hwf; by rewrite body_wf_filter_fresh|].
    rewrite H1, size_union by set_solver. by rewrite size_singleton.
  - intros es p Hp.
    assert (HKr : K ∈ scriptCache (run es w1))
      by (apply (run_cache_mono es w1); done).
    split; [done|]. apply injectScript_hit. by rewrite Hp.
Qed.

Lemma dedup_idempotence_witness :
  script_key scenario_A = VString "a.js"
  /\ appended (exec (injectScript scenario_A) (exec (injectScript scenario_A) page0)) =
       S (appended page0)
  /\ body (exec (injectScript scenario_A) (exec (injectScript scenario_A) page0)) =
       body page0 ++ [length (elements page0)]
  /\ size (scriptCache
             (exec (injectScript scenario_A) (exec (injectScript scenario_A) page0))) =
       S (size (scriptCache page0)).
Proof.
  split; [reflexivity|].
  destruct (dedup_idempotence (VString "a.js") scenario_A scenario_A page0
              eq_refl eq_refl) as (_ & _ & _ & Hnew & _).
  rewrite bool_decide_eq_false_2 in Hnew by apply not_elem_of_empty.
  destruct Hnew as (_ & Happ & _ & _ & Hbody & Hsize).
  split; [exact Happ|]. split; [|exact Hsize].
  apply Hbody. constructor.
Defined.

(** ** Descriptors without id and source *)

(** C4, as stated, fails: after one keyless descriptor was injected, the
    call for the next keyless descriptor finds [undefined] in the cache,
    returns [null] and appends nothing. *)
Lemma keyless_second_call_suppressed :
  obj_get "id" inline_b = VUndefined
  /\ obj_get "src" inline_b = VUndefined
  /\ (injectScript inline_a page0).1 = Some 0
  /\ (injectScript inline_b (exec (injectScript inline_a) page0)).1 = None
  /\ body (exec (injectScript inline_b) (exec (injectScript inline_a) page0)) = [0]
  /\ appended (exec (injectScript inline_b) (exec (injectScript inline_a) page0)) = 1.
Proof. vm_compute. repeat split. Qed.

(** C4, amended: a descriptor with neither id nor source derives the key
    [undefined], which the cache holds like any other key: the call that
    finds it absent creates and appends a new element and records
    [undefined]; a call that finds it present returns [null] and changes
    nothing. *)
Theorem keyless_shares_undefined_key (props : ScriptProps) (w : World) :
  truthy (obj_get "id" props) = false ->
  obj_get "src" props = VUndefined ->
  script_key props = VUndefined
  /\ match injectScript props w with
     | (None, w') => VUndefined ∈ scriptCache w /\ w' = w
     | (Some script, w') =>
         (VUndefined ∉ scriptCache w)
         /\ script = length (elements w)
         /\ appended w' = S (appended w)
         /\ last (body w') = Some script
         /\ VUndefined ∈ scriptCache w'
     end.
Proof.
  intros Hid Hsrc.
  assert (Hk : script_key props = VUndefined).
  { unfold script_key, js_or. by rewrite Hid. }
  split; [done|].
  destruct (decide (VUndefined ∈ scriptCache w)) as [Hin|Hout].
  - rewrite injectScript_hit by (by rewrite Hk). done.
  - rewrite injectScript_miss by (by rewrite Hk).
    repeat split; try done.
    + apply appended_injected_world.
    + unfold injected_world; cbn [body]. by rewrite last_snoc.
    + unfold injected_world; cbn [scriptCache]. rewrite Hk. set_solver.
Qed.

Lemma keyless_shares_undefined_key_witness :
  truthy (obj_get "id" inline_a) = false
  /\ obj_get "src" inline_a = VUndefined
  /\ script_key inline_a = VUndefined.
Proof.
  split; [reflexivity|]. split; [reflexivity|].
  exact (proj1 (keyless_shares_undefined_key inline_a page0 eq_refl eq_refl)).
Defined.

(** ** The resolvers *)

(** C6: [resolveInlineScript] computes the inline body of the
    specification; the raw-HTML value wins over the children. *)
Theorem resolveInlineScript_spec (props : ScriptProps) :
  resolveInlineScript props = inline_body_spec props.
Proof.
  unfold resolveInlineScript, inline_body_spec, js_or, dangerousHTML_of, with_default.
  assert (Hc : match obj_get "children" props with
               | VUndefined => VString ""
               | _ => obj_get "children" props
               end =
               if decide (obj_get "children" props = VUndefined) then VString ""
               else obj_get "children" props).
  { by destruct (obj_get "children" props). }
  rewrite Hc.
  destruct (obj_get "dangerouslySetInnerHTML" props) as [|s|b|[html|]|r];
    cbn [truthy String.eqb negb]; try reflexivity.
  destruct (decide (html = "")) as [->|Hne]; [reflexivity|].
  apply String.eqb_neq in Hne. by rewrite Hne.
Qed.

Lemma obj_get_set_eq (k : string) (v : Value) (o : Obj) :
  obj_get k (obj_set k v o) = v.
Proof.
  induction o as [|[k' v'] o IH]; cbn.
  - by rewrite String.eqb_refl.
  - destruct (String.eqb k k') eqn:E; cbn; by rewrite E.
Qed.

Lemma obj_get_set_ne (k k' : string) (v : Value) (o : Obj) :
  k ≠ k' -> obj_get k (obj_set k' v o) = obj_get k o.
Proof.
  intros Hne. induction o as [|[k0 v0] o IH]; cbn.
  - apply String.eqb_neq in Hne. by rewrite Hne.
  - destruct (String.eqb k' k0) eqn:E; cbn.
    + apply String.eqb_eq in E; subst k0.
      apply String.eqb_neq in Hne. by rewrite Hne.
    + by rewrite IH.
Qed.

Lemma obj_set_fresh (k : string) (v : Value) (o : Obj) :
  k ∉ keys o -> obj_set k v o = o ++ [(k, v)].
Proof.
  unfold keys. induction o as [|[k' v'] o IH]; cbn; [done|].
  intros Hk. apply not_elem_of_cons in Hk as [Hne Hk].
  apply String.eqb_neq in Hne. rewrite Hne. by rewrite IH.
Qed.

Lemma obj_get_elem (k : string) (v : Value) (o : Obj) :
  NoDup (keys o) -> (k, v) ∈ o -> obj_get k o = v.
Proof.
  unfold keys. induction o as [|[k' v'] o IH]; cbn; intros Hnd Hin.
  - by apply elem_of_nil in Hin.
  - apply NoDup_cons in Hnd as [Hk' Hnd].
    apply elem_of_cons in Hin as [Heq|Hin].
    + inversion Heq; subst. by rewrite String.eqb_refl.
    + destruct (String.eqb k k') eqn:E.
      * apply String.eqb_eq in E; subst k'.
        exfalso. apply Hk'. apply list_elem_of_fmap. by exists (k, v).
      * by apply IH.
Qed.

(** Spreading [o2] over [o1]: the keys of [o2] take the values of [o2]. *)
Lemma obj_get_spread (k : string) (o1 o2 : Obj) :
  obj_get k (obj_spread o1 o2) =
  if bool_decide (k ∈ keys o2) then obj_get k (obj_spread [] o2) else obj_get k o1.
Proof.
  unfold obj_spread, keys.
  revert o1. induction o2 as [|[k2 v2] o2 IH] using rev_ind; intros o1.
  - done.
  - rewrite !fold_left_app, fmap_app. cbn [fold_left fst snd].
    destruct (decide (k = k2)) as [->|Hne].
    + rewrite !obj_get_set_eq. rewrite bool_decide_eq_true_2; [done|].
      apply elem_of_app. right. cbn. by left.
    + rewrite !obj_get_set_ne by done. rewrite IH.
      rewrite (bool_decide_ext (k ∈ o2.*1 ++ [(k2, v2)].*1) (k ∈ o2.*1)); [done|].
      rewrite elem_of_app. cbn. rewrite list_elem_of_singleton. tauto.
Qed.

Lemma obj_spread_nil (o : Obj) : NoDup (keys o) -> obj_spread [] o = o.
Proof.
  unfold obj_spread, keys.
  induction o as [|[k v] o IH] using rev_ind; intros Hnd; [done|].
  rewrite fmap_app in Hnd. apply NoDup_app in Hnd as (Hnd & Hdisj & _).
  rewrite fold_left_app. cbn [fold_left fst snd]. rewrite IH by done.
  apply obj_set_fresh. intros Hin. apply (Hdisj k Hin). cbn. by left.
Qed.

Lemma keys_obj_set (k : string) (v : Value) (o : Obj) :
  keys (obj_set k v o) = if bool_decide (k ∈ keys o) then keys o else keys o ++ [k].
Proof.
  unfold keys. induction o as [|[k' v'] o IH]; cbn; [done|].
  destruct (String.eqb k k') eqn:E.
  - apply String.eqb_eq in E; subst k'. cbn.
    rewrite bool_decide_eq_true_2; [done | by left].
  - apply String.eqb_neq in E. cbn. rewrite IH.
    destruct (decide (k ∈ o.*1)) as [Hin|Hout].
    + rewrite !bool_decide_eq_true_2; [done | by right | done].
    + rewrite !bool_decide_eq_false_2; [done | | done].
      intros Hin. apply elem_of_cons in Hin as [?|?]; done.
Qed.

Lemma obj_set_NoDup (k : string) (v : Value) (o : Obj) :
  NoDup (keys o) -> NoDup (keys (obj_set k v o)).
Proof.
  intros Hnd. rewrite keys_obj_set. case_bool_decide as Hk; [done|].
  apply NoDup_app. split; [done|]. split; [|apply NoDup_singleton].
  intros x Hx Hx'. apply list_elem_of_singleton in Hx'. by subst.
Qed.

Lemma obj_set_keeps_keys (k k' : string) (v : Value) (o : Obj) :
  k ∈ keys o -> k ∈ keys (obj_set k' v o).
Proof.
  intros Hin. rewrite keys_obj_set. case_bool_decide; [done|].
  apply elem_of_app. by left.
Qed.

(** The resolved attributes never hold a key twice. *)
Lemma resolveAttributes_NoDup (props : ScriptProps) :
  NoDup (keys (resolveAttributes props)).
Proof.
  unfold resolveAttributes.
  induction props as [|[k v] props IH] using rev_ind; [constructor|].
  rewrite fold_left_app. cbn [fold_left fst snd].
  destruct (handled k); [done | by apply obj_set_NoDup].
Qed.

(** On an object (keys pairwise distinct) [resolveAttributes] keeps, in
    order, the entries whose key is not handled. *)
Lemma resolveAttributes_filter (props : ScriptProps) :
  NoDup (keys props) ->
  resolveAttributes props = filter (fun kv => handled kv.1 = false) props.
Proof.
  unfold resolveAttributes, keys.
  induction props as [|[k v] props IH] using rev_ind; intros Hnd; [done|].
  rewrite fmap_app in Hnd. apply NoDup_app in Hnd as (Hnd & Hdisj & _).
  rewrite fold_left_app, filter_app. cbn [fold_left fst snd]. rewrite IH by done.
  destruct (handled k) eqn:Hk.
  - rewrite filter_cons_False by (cbn; congruence). by rewrite filter_nil, app_nil_r.
  - rewrite filter_cons_True by done. rewrite filter_nil.
    apply obj_set_fresh. intros Hin.
    apply list_elem_of_fmap in Hin as ([k' v'] & Hk' & Hin). cbn in Hk'; subst k'.
    apply list_elem_of_filter in Hin as [_ Hin].
    apply (Hdisj k); [|cbn; by left].
    apply list_elem_of_fmap. by exists (k, v').
Qed.

(** No handled key is ever a key of the resolved attributes. *)
Lemma resolveAttributes_unhandled (props : ScriptProps) (k : string) :
  k ∈ keys (resolveAttributes props) -> handled k = false.
Proof.
  unfold resolveAttributes.
  assert (Hgen : forall acc : Obj,
    (k ∈ keys acc -> handled k = false) ->
    k ∈ keys (fold_left (fun attributes kv =>
        if handled kv.1 then attributes else obj_set kv.1 kv.2 attributes) props acc) ->
    handled k = false).
  { induction props as [|[k0 v0] props IH]; intros acc Hacc; cbn [fold_left fst snd];
      [done|].
    apply IH. destruct (handled k0) eqn:E; [done|].
    intros Hin. destruct (decide (k = k0)) as [->|Hne]; [done|].
    apply Hacc. clear -Hin Hne. unfold keys in *.
    induction acc as [|[k1 v1] acc IHa]; cbn in *.
    - apply list_elem_of_singleton in Hin. done.
    - destruct (String.eqb k0 k1); cbn in *; [done|].
      apply elem_of_cons in Hin as [->|Hin]; [by left|right; auto]. }
  apply Hgen. intros Hin. by apply elem_of_nil in Hin.
Qed.

(** ** Attribute passthrough *)

Lemma attrs_set_attrs_other (k : string) (l : Obj) (e : Element) :
  k ∉ keys l -> attrs (set_attrs l e) !! k = attrs e !! k.
Proof.
  unfold set_attrs, keys. revert e.
  induction l as [|[k' v'] l IH]; intros e Hk; cbn [fold_left fst snd]; [done|].
  cbn in Hk. apply not_elem_of_cons in Hk as [Hne Hk].
  rewrite IH by done. cbn [set_attr attrs]. by rewrite lookup_insert_ne.
Qed.

Lemma attrs_set_attrs (k : string) (v : Value) (l : Obj) (e : Element) :
  NoDup (keys l) -> (k, v) ∈ l -> attrs (set_attrs l e) !! k = Some v.
Proof.
  unfold set_attrs, keys. revert e.
  induction l as [|[k' v'] l IH]; intros e Hnd Hin; cbn [fold_left fst snd].
  - by apply elem_of_nil in Hin.
  - cbn in Hnd. apply NoDup_cons in Hnd as [Hk' Hnd].
    apply elem_of_cons in Hin as [Heq|Hin].
    + inversion Heq; subst k' v'.
      fold (set_attrs l (set_attr k v e)). rewrite attrs_set_attrs_other by done.
      cbn [set_attr attrs]. by rewrite lookup_insert_eq.
    + by apply IH.
Qed.

Lemma attrs_cond_listener (b : bool) (kind : string) (fn : Value) (e : Element) :
  attrs (cond b (add_listener kind fn) e) = attrs e.
Proof. by destruct b. Qed.

Lemma attrs_cond_text (b : bool) (v : Value) (e : Element) :
  attrs (cond b (set_text v) e) = attrs e.
Proof. by destruct b. Qed.

Lemma attrs_cond_attr_ne (b : bool) (k k' : string) (v : Value) (e : Element) :
  k ≠ k' -> attrs (cond b (set_attr k' v) e) !! k = attrs e !! k.
Proof. intros Hne. destruct b; cbn; [by rewrite lookup_insert_ne | done]. Qed.

(** A passthrough attribute of the props is an attribute of the element
    [injectScript] builds. *)
Lemma injected_element_passthrough (props : ScriptProps) (k : string) (v : Value) :
  NoDup (keys props) -> (k, v) ∈ props -> handled k = false ->
  attrs (injected_element props) !! k = Some v.
Proof.
  intros Hnd Hin Hk. unfold injected_element.
  rewrite !attrs_cond_listener.
  rewrite attrs_cond_attr_ne by (intros ->; done).
  rewrite attrs_cond_text.
  apply attrs_set_attrs; [apply resolveAttributes_NoDup|].
  rewrite resolveAttributes_filter by done.
  apply list_elem_of_filter. done.
Qed.

Lemma SetAttribute_in_inject_calls (props : ScriptProps) (h : handle)
    (k : string) (v : Value) :
  SetAttribute h k v ∈ inject_calls props h <-> (k, v) ∈ resolveAttributes props.
Proof.
  unfold inject_calls. split.
  - intros Hin.
    repeat (apply elem_of_app in Hin as [Hin|Hin]);
      try (apply list_elem_of_singleton in Hin; discriminate);
      try (unfold opt_list in Hin;
           match type of Hin with context [truthy ?x] => destruct (truthy x) end;
           [apply list_elem_of_singleton in Hin; discriminate
           | by apply elem_of_nil in Hin]).
    apply list_elem_of_fmap in Hin as ([k' v'] & Heq & Hin).
    cbn in Heq. by inversion Heq; subst.
  - intros Hin. apply elem_of_app; right. apply elem_of_app; right.
    apply elem_of_app; right. apply elem_of_app; left.
    apply list_elem_of_fmap. by exists (k, v).
Qed.

(** C7, as stated, fails on the declarative path: [type] is not a handled
    key, yet the rendered element carries [text/partytown], not the value
    supplied. *)
Lemma partytown_type_not_passed_through :
  handled "type" = false
  /\ obj_get "type" partytown_module = VString "module"
  /\ exists a c,
       Script_render partytown_module = ScriptElement a c
       /\ obj_get "type" a = VString "text/partytown"
       /\ obj_get "type" a <> VString "module".
Proof.
  split; [reflexivity|]. split; [reflexivity|].
  eexists _, _. split; [vm_compute; reflexivity|].
  split; [reflexivity | discriminate].
Qed.

Lemma obj_get_spread_in (k : string) (o1 o2 : Obj) :
  NoDup (keys o2) -> k ∈ keys o2 -> obj_get k (obj_spread o1 o2) = obj_get k o2.
Proof.
  intros Hnd Hin. rewrite obj_get_spread, bool_decide_eq_true_2 by done.
  by rewrite obj_spread_nil.
Qed.

(** C7, amended: on an object (keys pairwise distinct), an entry whose key
    is not handled and whose value is a string is set, with that string,
    on the element [injectScript] inserts, and is an attribute, with that
    string, of the element [Script] renders, except that under
    experimental-partytown the rendered [type] is [text/partytown].  For
    every descriptor, a handled key is never passed through: it is no key
    of the resolved attributes and no [setAttribute] call of
    [injectScript] names it. *)
Theorem passthrough_fidelity (props : ScriptProps) :
  (forall (k s : string),
     NoDup (keys props) -> (k, VString s) ∈ props -> handled k = false ->
     (forall w script w', injectScript props w = (Some script, w') ->
        (exists e, elements w' !! script = Some e /\ attrs e !! k = Some (VString s))
        /\ SetAttribute script k (VString s) ∈ calls w')
     /\ (forall a c, Script_render props = ScriptElement a c ->
           obj_get k a =
             if strict_eq (props_strategy props) experimentalPartytown
                && String.eqb k "type"
             then partytown_type else VString s))
  /\ (forall k', handled k' = true ->
        (k' ∉ keys (resolveAttributes props))
        /\ forall h v', SetAttribute h k' v' ∉ inject_calls props h)
  /\ (forall w script w', injectScript props w = (Some script, w') ->
        calls w' = calls w ++ inject_calls props script).
Proof.
  split; [|split].
  - intros k s Hnd Hin Hk. set (v := VString s) in *.
    assert (Hres : (k, v) ∈ resolveAttributes props).
    { rewrite resolveAttributes_filter by done. by apply list_elem_of_filter. }
    assert (Hkeys : k ∈ keys (resolveAttributes props)).
    { apply list_elem_of_fmap. by exists (k, v). }
    assert (Hndr : NoDup (keys (resolveAttributes props))).
    { apply resolveAttributes_NoDup. }
    split.
    + intros w script w' Hrun.
      destruct (decide (script_key props ∈ scriptCache w)) as [Hhit|Hmiss].
      * rewrite injectScript_hit in Hrun by done. discriminate.
      * rewrite injectScript_miss in Hrun by done.
        inversion Hrun; subst script w'. unfold injected_world; cbn [elements calls].
        split.
        -- exists (injected_element props). split.
           ++ by apply list_lookup_middle.
           ++ by apply injected_element_passthrough.
        -- apply elem_of_app. right. by apply SetAttribute_in_inject_calls.
    + intros a c. unfold Script_render.
      destruct (strict_eq (props_strategy props) preHydrate
                || strict_eq (props_strategy props) experimentalPartytown);
        [|discriminate].
      set (attributes :=
        if strict_eq (props_strategy props) experimentalPartytown
        then obj_set "type" partytown_type (resolveAttributes props)
        else resolveAttributes props).
      assert (Hnda : NoDup (keys attributes)).
      { unfold attributes. destruct (strict_eq _ _); [by apply obj_set_NoDup | done]. }
      assert (Hka : k ∈ keys attributes).
      { unfold attributes. destruct (strict_eq _ _);
          [by apply obj_set_keeps_keys | done]. }
      assert (Hget : obj_get k attributes =
          if strict_eq (props_strategy props) experimentalPartytown
             && String.eqb k "type"
          then partytown_type else v).
      { unfold attributes. destruct (strict_eq _ _); cbn [andb].
        - destruct (String.eqb k "type") eqn:E.
          + apply String.eqb_eq in E; subst k. apply obj_get_set_eq.
          + apply String.eqb_neq in E. rewrite obj_get_set_ne by done.
            by apply obj_get_elem.
        - by apply obj_get_elem. }
      destruct (truthy (resolveInlineScript props)); intros Heq; inversion Heq;
        subst a c; by rewrite obj_get_spread_in.
  - intros k' Hk'. split.
    + intros Hin'. apply resolveAttributes_unhandled in Hin'. congruence.
    + intros h v' Hin'. apply SetAttribute_in_inject_calls in Hin'.
      assert (k' ∈ keys (resolveAttributes props)) as Hin''.
      { apply list_elem_of_fmap. by exists (k', v'). }
      apply resolveAttributes_unhandled in Hin''. congruence.
  - intros w script w' Hrun.
    destruct (decide (script_key props ∈ scriptCache w)) as [Hhit|Hmiss].
    + rewrite injectScript_hit in Hrun by done. discriminate.
    + rewrite injectScript_miss in Hrun by done.
      by inversion Hrun; subst script w'.
Qed.

Lemma passthrough_fidelity_witness :
  NoDup (keys with_passthrough)
  /\ ("crossOrigin", VString "anonymous") ∈ with_passthrough
  /\ handled "crossOrigin" = false
  /\ (forall w script w',
        injectScript with_passthrough w = (Some script, w') ->
        SetAttribute script "crossOrigin" (VString "anonymous") ∈ calls w')
  /\ handled "src" = true
  /\ handled "strategy" = true
  /\ ("src" ∉ keys (resolveAttributes scenario_A))
  /\ ("strategy" ∉ keys (resolveAttributes scenario_A)).
Proof.
  assert (Hnd : NoDup (keys with_passthrough)) by compute_done.
  assert (Hin : ("crossOrigin", VString "anonymous") ∈ with_passthrough)
    by compute_done.
  split; [exact Hnd|]. split; [exact Hin|]. split; [reflexivity|].
  destruct (passthrough_fidelity with_passthrough) as (Hpass & _ & _).
  destruct (Hpass "crossOrigin" "anonymous" Hnd Hin eq_refl) as (Himp & _).
  split; [intros w script w' Hrun; exact (proj2 (Himp w script w' Hrun))|].
  destruct (passthrough_fidelity scenario_A) as (_ & Hctl & _).
  split; [reflexivity|]. split; [reflexivity|].
  split; [exact (proj1 (Hctl "src" eq_refl)) | exact (proj1 (Hctl "strategy" eq_refl))].
Defined.

(** ** The mount effect, the cleanup and the idle callback in closed form *)

Lemma idle_callback_run (c : nat) (props : ScriptProps) (w : World) :
  idle_callback c props w = ((), inject_assign c props w).
Proof.
  unfold idle_callback, inject_assign. rewrite bind_run.
  by destruct (injectScript props w).
Qed.

Lemma Script_effect_run (props : ScriptProps) (w : World) :
  Script_effect props w =
  (length (closures w),
   let c := length (closures w) in
   let w0 := closure_created props w in
   if strict_eq (props_strategy props) preHydrate then
     let w1 := with_calls (calls w ++ [GetEntriesByName (location_href w)]) w0 in
     if alreadyLoaded w (location_href w) then w1 else inject_assign c props w1
   else if strict_eq (props_strategy props) postHydrate then inject_assign c props w0
   else if strict_eq (props_strategy props) idle then
     with_idleCallbacks (idleCallbacks w ++ [c])
       (with_calls (calls w ++ [RequestIdleCallback c]) w0)
   else w0).
Proof.
  unfold Script_effect, alreadyLoaded. rewrite bind_run.
  change (new_closure props w) with (length (closures w), closure_created props w).
  cbn [fst snd]. rewrite bind_run. unfold mret at 1, M_ret at 1. f_equal.
  cbv zeta.
  destruct (strict_eq (props_strategy props) preHydrate).
  - rewrite bind_run. unfold get_world at 1 2. cbn [fst snd]. rewrite bind_run.
    change (getEntriesByName (location_href (closure_created props w))
              (closure_created props w))
      with (filter (fun n => n = location_href w) (perfEntries w),
            with_calls (calls w ++ [GetEntriesByName (location_href w)])
              (closure_created props w)).
    cbn [fst snd].
    destruct (bool_decide (length (filter (fun n => n = location_href w)
                                          (perfEntries w)) = 0)); cbn [negb].
    + fold (idle_callback (length (closures w)) props).
      by rewrite idle_callback_run.
    + done.
  - destruct (strict_eq (props_strategy props) postHydrate).
    + fold (idle_callback (length (closures w)) props).
      by rewrite idle_callback_run.
    + destruct (strict_eq (props_strategy props) idle); [|done].
      by destruct w.
Qed.

Lemma cleanup_none (props : ScriptProps) (w : World) : cleanup props None w = ((), w).
Proof.
  unfold cleanup.
  destruct (truthy (obj_get "onLoad" props)), (truthy (obj_get "onError" props));
    reflexivity.
Qed.

Lemma cleanup_some (props : ScriptProps) (h : handle) (w : World) :
  cleanup props (Some h) w =
  ((), with_body (filter (fun h' => h' ≠ h) (body w))
         (with_elements (alter (detach_listeners props) h (elements w))
            (with_calls (calls w ++ cleanup_calls props h) w))).
Proof.
  unfold cleanup, opt_call, removeEventListener, remove_node, cleanup_calls,
    detach_listeners.
  destruct w as [ca es b hr pe cl iq cs].
  do 2 (rewrite bind_run, when_logged_update; world_norm).
  unfold host_call, modify. rewrite bind_run. world_norm.
  rewrite list_alter_alter_eq, <- !app_assoc. reflexivity.
Qed.

Lemma Script_unmount_run (c : nat) (props : ScriptProps) (script : option handle)
    (w : World) :
  closures w !! c = Some (mkClosure props script true) ->
  Script_unmount c w =
  cleanup props script
    (with_closures (alter (fun cl => mkClosure (cl_props cl) (cl_script cl) false)
                          c (closures w)) w).
Proof.
  intros Hc. unfold Script_unmount. rewrite bind_run. unfold get_world at 1 2.
  cbn [fst snd]. rewrite Hc. cbn [cl_mounted cl_props cl_script].
  rewrite bind_run. reflexivity.
Qed.

Lemma Script_unmount_done (c : nat) (w : World) :
  (forall cl, closures w !! c = Some cl -> cl_mounted cl = false) ->
  Script_unmount c w = ((), w).
Proof.
  intros Hc. unfold Script_unmount. rewrite bind_run. unfold get_world at 1 2.
  cbn [fst snd]. destruct (closures w !! c) as [cl|] eqn:E; [|done].
  by rewrite (Hc cl eq_refl).
Qed.

Lemma idle_fires_run (n c : nat) (props : ScriptProps) (script : option handle)
    (mounted : bool) (w : World) :
  idleCallbacks w !! n = Some c ->
  closures w !! c = Some (mkClosure props script mounted) ->
  idle_fires n w =
  ((), inject_assign c props (with_idleCallbacks (delete n (idleCallbacks w)) w)).
Proof.
  intros Hn Hc. unfold idle_fires. rewrite bind_run. unfold get_world at 1 2.
  cbn [fst snd]. rewrite Hn, Hc. cbn [cl_props].
  rewrite bind_run. unfold modify. cbn [fst snd].
  apply idle_callback_run.
Qed.

Lemma inject_assign_hit (c : nat) (props : ScriptProps) (w : World) :
  script_key props ∈ scriptCache w ->
  inject_assign c props w =
  with_closures
    (alter (fun cl => mkClosure (cl_props cl) None (cl_mounted cl)) c (closures w)) w.
Proof. intros Hin. unfold inject_assign. by rewrite injectScript_hit. Qed.

Lemma inject_assign_miss (c : nat) (props : ScriptProps) (w : World) :
  script_key props ∉ scriptCache w ->
  inject_assign c props w =
  with_closures
    (alter (fun cl => mkClosure (cl_props cl) (Some (length (elements w))) (cl_mounted cl))
           c (closures w))
    (injected_world props w).
Proof. intros Hout. unfold inject_assign. by rewrite injectScript_miss. Qed.

Lemma strict_eq_strategy (s1 s2 : ScriptStrategy) :
  strict_eq s1 s2 = strategy_eqb s1 s2.
Proof. destruct s1, s2; reflexivity. Qed.

(** Rewrite the effective strategy to the enumeration member [H] names
    and decide the comparisons of the [switch] and of the render test. *)
Ltac strategy_is H :=
  rewrite ?H; rewrite ?strict_eq_strategy;
  cbn [strategy_eqb orb andb negb].

Lemma closure_created_lookup (props : ScriptProps) (w : World) :
  closures (closure_created props w) !! length (closures w) =
  Some (mkClosure props None true).
Proof. unfold closure_created; cbn [closures]. by apply list_lookup_middle. Qed.

Lemma obj_get_spread_out (k : string) (o1 o2 : Obj) :
  k ∉ keys o2 -> obj_get k (obj_spread o1 o2) = obj_get k o1.
Proof. intros Hk. by rewrite obj_get_spread, bool_decide_eq_false_2. Qed.

(** ** experimental-partytown *)

(** C5: under experimental-partytown [Script] renders a script element
    whose [type] is [text/partytown] (and whose [src] is the source when
    there is no inline body); the render result is a function of the
    props alone.  Mounting makes no host call, schedules nothing and
    leaves document and cache as they were, and so does unmounting. *)
Theorem partytown_always_declarative (props : ScriptProps) (w : World) :
  props_strategy props = experimentalPartytown ->
  (exists a,
     Script_render props =
       ScriptElement a (if truthy (resolveInlineScript props)
                        then Some (resolveInlineScript props) else None)
     /\ obj_get "type" a = VString "text/partytown"
     /\ (truthy (resolveInlineScript props) = false ->
         obj_get "src" a = obj_get "src" props))
  /\ let c := length (closures w) in
     let w1 := exec (Script_effect props) w in
     let w2 := exec (Script_unmount c) w1 in
     calls w1 = calls w /\ elements w1 = elements w /\ body w1 = body w
     /\ scriptCache w1 = scriptCache w /\ idleCallbacks w1 = idleCallbacks w
     /\ calls w2 = calls w /\ elements w2 = elements w /\ body w2 = body w
     /\ scriptCache w2 = scriptCache w /\ idleCallbacks w2 = idleCallbacks w.
Proof.
  intros Hs. split.
  - unfold Script_render. strategy_is Hs.
    assert (Htype : "type" ∈ keys (obj_set "type" partytown_type (resolveAttributes props))).
    { rewrite keys_obj_set. case_bool_decide; [done|]. apply elem_of_app. right. by left. }
    assert (Hnd : NoDup (keys (obj_set "type" partytown_type (resolveAttributes props)))).
    { apply obj_set_NoDup, resolveAttributes_NoDup. }
    destruct (truthy (resolveInlineScript props)) eqn:Hinline.
    + eexists. split; [reflexivity|]. split; [|discriminate].
      rewrite obj_get_spread_in by done. apply obj_get_set_eq.
    + eexists. split; [reflexivity|]. split.
      * rewrite obj_get_spread_in by done. apply obj_get_set_eq.
      * intros _. rewrite obj_get_spread_out; [reflexivity|].
        rewrite keys_obj_set. intros Hin.
        assert (Hsrc : "src" ∈ keys (resolveAttributes props)).
        { case_bool_decide; [done|].
          apply elem_of_app in Hin as [?|Hin]; [done|].
          apply list_elem_of_singleton in Hin. discriminate. }
        apply resolveAttributes_unhandled in Hsrc. discriminate.
  - intros c w1 w2.
    assert (Hw1 : w1 = closure_created props w).
    { unfold w1, exec. rewrite Script_effect_run. cbn [snd]. by strategy_is Hs. }
    assert (Hw2 : w2 =
      with_closures (alter (fun cl => mkClosure (cl_props cl) (cl_script cl) false)
                           c (closures w1)) w1).
    { unfold w2, exec.
      rewrite (Script_unmount_run c props None)
        by (rewrite Hw1; apply closure_created_lookup).
      by rewrite cleanup_none. }
    rewrite Hw2, Hw1. destruct w; repeat split; reflexivity.
Qed.

Lemma partytown_always_declarative_witness :
  props_strategy scenario_C = experimentalPartytown
  /\ calls (exec (Script_effect scenario_C) page0) = [].
Proof.
  split; [reflexivity|].
  exact (proj1 (proj2 (partytown_always_declarative scenario_C page0 eq_refl))).
Defined.

(** ** Teardown *)

Lemma listeners_set_attrs (l : Obj) (e : Element) :
  listeners (set_attrs l e) = listeners e.
Proof.
  unfold set_attrs. revert e.
  induction l as [|[k v] l IH]; intros e; cbn [fold_left]; [done|].
  by rewrite IH.
Qed.

Lemma listeners_cond_attr (b : bool) (k : string) (v : Value) (e : Element) :
  listeners (cond b (set_attr k v) e) = listeners e.
Proof. by destruct b. Qed.

Lemma listeners_cond_text (b : bool) (v : Value) (e : Element) :
  listeners (cond b (set_text v) e) = listeners e.
Proof. by destruct b. Qed.

Lemma listeners_injected_element (props : ScriptProps) :
  listeners (injected_element props) = attached_listeners props.
Proof.
  unfold injected_element, attached_listeners.
  set (e := cond (truthy (obj_get "src" props)) _ _).
  assert (He : listeners e = []).
  { unfold e. rewrite listeners_cond_attr, listeners_cond_text, listeners_set_attrs.
    cbn [set_attr listeners]. by rewrite listeners_cond_attr. }
  destruct (truthy (obj_get "onLoad" props)), (truthy (obj_get "onError" props));
    cbn [cond opt_list add_listener listeners]; rewrite ?He; reflexivity.
Qed.

Lemma detach_attached (props : ScriptProps) (e : Element) :
  listeners e = attached_listeners props ->
  listeners (detach_listeners props e) = [] /\ attrs (detach_listeners props e) = attrs e
  /\ textContent (detach_listeners props e) = textContent e.
Proof.
  unfold detach_listeners, attached_listeners. intros He.
  destruct (truthy (obj_get "onLoad" props)), (truthy (obj_get "onError" props));
    cbn [cond opt_list remove_listener listeners attrs textContent app] in *;
    rewrite ?He; repeat split;
    repeat (first [ rewrite filter_cons_False by (intros Hne; by apply Hne)
                  | rewrite filter_cons_True by discriminate
                  | rewrite filter_nil ]);
    reflexivity.
Qed.

(** C8: a post-hydrate mount leaves its closure owning the element it
    created, with one listener per supplied handler (or owning nothing
    when the key was cached already).  Unmounting a closure that owns
    element [h] issues one detach per supplied handler and then the
    removal of [h], in that order and nothing else; [h] leaves the body,
    loses the listeners that were attached, and no other element changes.
    Unmounting a closure that owns nothing makes no call at all. *)
Theorem teardown_symmetry (props : ScriptProps) :
  (forall w, props_strategy props = postHydrate ->
     let c := length (closures w) in
     let h := length (elements w) in
     let w1 := exec (Script_effect props) w in
     if bool_decide (script_key props ∈ scriptCache w) then
       closures w1 !! c = Some (mkClosure props None true) /\ calls w1 = calls w
     else
       closures w1 !! c = Some (mkClosure props (Some h) true)
       /\ elements w1 !! h = Some (injected_element props)
       /\ listeners (injected_element props) = attached_listeners props)
  /\ (forall w c script,
        closures w !! c = Some (mkClosure props script true) ->
        let onLoad := obj_get "onLoad" props in
        let onError := obj_get "onError" props in
        let w' := exec (Script_unmount c) w in
        scriptCache w' = scriptCache w
        /\ closures w' !! c = Some (mkClosure props script false)
        /\ match script with
           | None =>
               calls w' = calls w /\ body w' = body w /\ elements w' = elements w
           | Some h =>
               calls w' =
                 calls w
                 ++ opt_list (truthy onLoad) (RemoveEventListener h "load" onLoad)
                 ++ opt_list (truthy onError) (RemoveEventListener h "error" onError)
                 ++ [RemoveNode h]
               /\ body w' = filter (fun h' => h' ≠ h) (body w)
               /\ (forall h', h' ≠ h -> elements w' !! h' = elements w !! h')
               /\ (forall e, elements w !! h = Some e ->
                     listeners e = attached_listeners props ->
                     exists e', elements w' !! h = Some e'
                                /\ listeners e' = []
                                /\ attrs e' = attrs e
                                /\ textContent e' = textContent e)
           end).
Proof.
  split.
  - intros w Hs c h w1.
    assert (Hw1 : w1 = inject_assign c props (closure_created props w)).
    { unfold w1, exec. rewrite Script_effect_run. cbn [snd]. by strategy_is Hs. }
    rewrite Hw1. subst c h. case_bool_decide as Hk.
    + rewrite inject_assign_hit by done. unfold closure_created.
      destruct w; cbn [closures calls with_closures]. split; [|done].
      rewrite alter_last. by apply list_lookup_middle.
    + rewrite inject_assign_miss by done. unfold closure_created, injected_world.
      destruct w; cbn [closures calls elements with_closures]. split; [|split].
      * rewrite alter_last. by apply list_lookup_middle.
      * by apply list_lookup_middle.
      * apply listeners_injected_element.
  - intros w c script Hc onLoad onError w'.
    assert (Hw' : w' =
      exec (cleanup props script)
        (with_closures (alter (fun cl => mkClosure (cl_props cl) (cl_script cl) false)
                              c (closures w)) w)).
    { unfold w', exec. by rewrite (Script_unmount_run c props script). }
    assert (Hcl : alter (fun cl => mkClosure (cl_props cl) (cl_script cl) false)
                    c (closures w) !! c = Some (mkClosure props script false)).
    { rewrite list_lookup_alter_eq, Hc. done. }
    rewrite Hw'. unfold exec. destruct script as [h|].
    + rewrite cleanup_some. destruct w; world_norm. cbn [closures] in Hcl.
      repeat split; try done.
      * intros h' Hne. by rewrite list_lookup_alter_ne.
      * intros e He Hl. exists (detach_listeners props e). cbn [elements] in He.
        rewrite list_lookup_alter_eq, He.
        destruct (detach_attached props e Hl) as (? & ? & ?). done.
    + rewrite cleanup_none. destruct w; world_norm. cbn [closures] in Hcl. done.
Qed.

Lemma teardown_symmetry_witness :
  props_strategy with_passthrough = postHydrate
  /\ closures (exec (Script_effect with_passthrough) page0) !! 0 =
       Some (mkClosure with_passthrough (Some 0) true)
  /\ calls (exec (Script_unmount 0) (exec (Script_effect with_passthrough) page0)) =
       calls (exec (Script_effect with_passthrough) page0)
       ++ [RemoveEventListener 0 "load" (VHandler 1); RemoveNode 0].
Proof.
  split; [reflexivity|].
  destruct (teardown_symmetry with_passthrough) as [Hmount Hunmount].
  pose proof (Hmount page0 eq_refl) as Hm.
  rewrite bool_decide_eq_false_2 in Hm by apply not_elem_of_empty.
  destruct Hm as (Hc & _ & _).
  split; [exact Hc|].
  destruct (Hunmount _ _ _ Hc) as (_ & _ & Hcalls & _).
  exact Hcalls.
Defined.

(** ** The idle strategy *)

(** What firing a pending idle callback does depends on the cache of the
    world it fires in. *)
Lemma idle_fires_checks_cache_then (props : ScriptProps) (c m : nat)
    (s : option handle) (mounted : bool) (w : World) :
  idleCallbacks w !! m = Some c ->
  closures w !! c = Some (mkClosure props s mounted) ->
  let w' := exec (idle_fires m) w in
  if bool_decide (script_key props ∈ scriptCache w) then
    calls w' = calls w /\ body w' = body w /\ elements w' = elements w
    /\ scriptCache w' = scriptCache w
  else
    calls w' = calls w ++ inject_calls props (length (elements w))
    /\ appended w' = S (appended w)
    /\ body w' = filter (fun h' => h' ≠ length (elements w)) (body w)
                 ++ [length (elements w)]
    /\ elements w' = elements w ++ [injected_element props]
    /\ scriptCache w' = {[script_key props]} ∪ scriptCache w
    /\ closures w' !! c = Some (mkClosure props (Some (length (elements w))) mounted).
Proof.
  intros Hm Hc w'. unfold w', exec.
  rewrite (idle_fires_run m c props s mounted) by done. cbn [snd].
  case_bool_decide as Hk.
  - rewrite inject_assign_hit by (by destruct w). by destruct w.
  - rewrite inject_assign_miss by (by destruct w).
    destruct w as [ca es b hr pe cl iq cs]; unfold injected_world; world_norm.
    cbn [closures] in Hc.
    repeat split; try done.
    + unfold appended; world_norm.
      rewrite filter_app, filter_append_inject_calls, length_app. cbn. lia.
    + rewrite list_lookup_alter_eq, Hc. done.
Qed.

(** C9: mounting an idle descriptor only schedules the callback; if the
    component unmounts before the callback fires there is nothing to tear
    down and the callback stays pending; whenever the callback fires it
    runs [injectScript] against the cache of that moment.  So when it
    fires after the unmount and the key is still not cached, the element
    is created and appended, and the closure's cleanup, which has run
    already, will not remove it. *)
Theorem idle_insertion_deferred (props : ScriptProps) (w : World) :
  props_strategy props = idle ->
  let c := length (closures w) in
  let n := length (idleCallbacks w) in
  let h := length (elements w) in
  let w1 := exec (Script_effect props) w in
  let w2 := exec (Script_unmount c) w1 in
  let w3 := exec (idle_fires n) w2 in
  (calls w1 = calls w ++ [RequestIdleCallback c]
   /\ idleCallbacks w1 = idleCallbacks w ++ [c]
   /\ body w1 = body w /\ elements w1 = elements w /\ scriptCache w1 = scriptCache w)
  /\ (calls w2 = calls w1 /\ idleCallbacks w2 = idleCallbacks w1
      /\ body w2 = body w /\ elements w2 = elements w /\ scriptCache w2 = scriptCache w)
  /\ (forall w' m s mounted,
        idleCallbacks w' !! m = Some c ->
        closures w' !! c = Some (mkClosure props s mounted) ->
        if bool_decide (script_key props ∈ scriptCache w') then
          calls (exec (idle_fires m) w') = calls w'
          /\ body (exec (idle_fires m) w') = body w'
        else
          appended (exec (idle_fires m) w') = S (appended w')
          /\ last (body (exec (idle_fires m) w')) = Some (length (elements w')))
  /\ (script_key props ∉ scriptCache w ->
      calls w3 = calls w2 ++ inject_calls props h
      /\ appended w3 = S (appended w)
      /\ (body_wf w -> body w3 = body w ++ [h])
      /\ last (body w3) = Some h
      /\ closures w3 !! c = Some (mkClosure props (Some h) false)
      /\ exec (Script_unmount c) w3 = w3).
Proof.
  intros Hs c n h w1 w2 w3.
  assert (Hw1 : w1 =
    with_idleCallbacks (idleCallbacks w ++ [c])
      (with_calls (calls w ++ [RequestIdleCallback c]) (closure_created props w))).
  { unfold w1, exec. rewrite Script_effect_run. cbn [snd]. by strategy_is Hs. }
  assert (Hc1 : closures w1 !! c = Some (mkClosure props None true)).
  { rewrite Hw1. destruct w; world_norm. unfold closure_created; world_norm.
    by apply list_lookup_middle. }
  assert (Hw2 : w2 =
    with_closures (alter (fun cl => mkClosure (cl_props cl) (cl_script cl) false)
                         c (closures w1)) w1).
  { unfold w2, exec. rewrite (Script_unmount_run c props None) by done.
    by rewrite cleanup_none. }
  assert (Hc2 : closures w2 !! c = Some (mkClosure props None false)).
  { rewrite Hw2. destruct w1; world_norm. cbn [closures] in Hc1.
    by rewrite list_lookup_alter_eq, Hc1. }
  assert (Hn2 : idleCallbacks w2 !! n = Some c).
  { rewrite Hw2, Hw1. destruct w; world_norm. unfold closure_created; world_norm.
    by apply list_lookup_middle. }
  split; [|split; [|split]].
  - rewrite Hw1. by destruct w.
  - rewrite Hw2. rewrite Hw1. by destruct w.
  - intros w' m s mounted Hm Hcl.
    pose proof (idle_fires_checks_cache_then props c m s mounted w' Hm Hcl) as Hf.
    cbv zeta in Hf. case_bool_decide.
    + destruct Hf as (? & ? & _). done.
    + destruct Hf as (_ & ? & Hb & _). split; [done|]. rewrite Hb. by rewrite last_snoc.
  - intros Hk.
    assert (Hk2 : script_key props ∉ scriptCache w2).
    { rewrite Hw2, Hw1. by destruct w. }
    assert (He2 : elements w2 = elements w) by (rewrite Hw2, Hw1; by destruct w).
    assert (Hb2 : body w2 = body w) by (rewrite Hw2, Hw1; by destruct w).
    assert (Ha2 : appended w2 = appended w).
    { unfold appended. rewrite Hw2, Hw1. destruct w; world_norm.
      unfold closure_created; world_norm. rewrite filter_app. cbn.
      by rewrite app_nil_r. }
    pose proof (idle_fires_checks_cache_then props c n None false w2 Hn2 Hc2) as Hf.
    cbv zeta in Hf. rewrite bool_decide_eq_false_2 in Hf by done.
    fold w3 in Hf. rewrite He2, Hb2, Ha2 in Hf. fold h in Hf.
    destruct Hf as (Hcalls & Happ & Hbody & _ & _ & Hcl).
    split; [done|]. split; [done|]. split; [|split; [|split]].
    + intros Hwf. rewrite Hbody. unfold h. by rewrite body_wf_filter_fresh.
    + rewrite Hbody. by rewrite last_snoc.
    + done.
    + cut (Script_unmount c w3 = ((), w3)); [intros Hu; unfold exec; by rewrite Hu|].
      apply Script_unmount_done. intros cl Hcl'. rewrite Hcl in Hcl'.
      by inversion Hcl'.
Qed.

Lemma idle_insertion_deferred_witness :
  props_strategy scenario_D = idle
  /\ (script_key scenario_D ∉ scriptCache page0)
  /\ body (exec (idle_fires (length (idleCallbacks page0)))
            (exec (Script_unmount (length (closures page0)))
               (exec (Script_effect scenario_D) page0))) =
     body page0 ++ [length (elements page0)].
Proof.
  split; [reflexivity|]. split; [apply not_elem_of_empty|].
  destruct (idle_insertion_deferred scenario_D page0 eq_refl) as (_ & _ & _ & Hfire).
  destruct (Hfire (not_elem_of_empty _)) as (_ & _ & Hbody & _).
  apply Hbody. constructor.
Defined.

(** ** The pre-hydrate gate and the partition by strategy *)

Lemma filter_query_inject_calls (props : ScriptProps) (h : handle) :
  filter is_query (inject_calls props h) = [].
Proof.
  unfold inject_calls. rewrite !filter_app.
  assert (Hmap : filter is_query
            (map (fun kv => SetAttribute h kv.1 kv.2) (resolveAttributes props)) = []).
  { induction (resolveAttributes props) as [|[k v] l IH]; [done | cbn; done]. }
  rewrite Hmap.
  repeat match goal with |- context [truthy ?v] => destruct (truthy v) end;
    reflexivity.
Qed.

Lemma filter_query_cleanup_calls (props : ScriptProps) (h : handle) :
  filter is_query (cleanup_calls props h) = [].
Proof.
  unfold cleanup_calls.
  repeat match goal with |- context [truthy ?v] => destruct (truthy v) end;
    reflexivity.
Qed.

Lemma calls_inject_assign (c : nat) (props : ScriptProps) (w : World) :
  calls (inject_assign c props w) =
  calls w ++ if bool_decide (script_key props ∈ scriptCache w) then []
             else inject_calls props (length (elements w)).
Proof.
  case_bool_decide.
  - rewrite inject_assign_hit by done. destruct w; world_norm. by rewrite app_nil_r.
  - rewrite inject_assign_miss by done. by destruct w.
Qed.

Lemma queries_inject_assign (c : nat) (props : ScriptProps) (w : World) :
  queries (inject_assign c props w) = queries w.
Proof.
  unfold queries. rewrite calls_inject_assign, filter_app.
  case_bool_decide; [|rewrite filter_query_inject_calls]; by rewrite app_nil_r.
Qed.

Lemma queries_Script_unmount (c : nat) (w : World) :
  queries (exec (Script_unmount c) w) = queries w.
Proof.
  destruct (closures w !! c) as [[props script [|]]|] eqn:Hc.
  - unfold exec. rewrite (Script_unmount_run c props script) by done.
    destruct script as [h|].
    + rewrite cleanup_some. unfold queries. destruct w; world_norm.
      by rewrite filter_app, filter_query_cleanup_calls, app_nil_r.
    + rewrite cleanup_none. by destruct w.
  - unfold exec. rewrite Script_unmount_done; [done|].
    intros cl Hcl. rewrite Hc in Hcl. by inversion Hcl.
  - unfold exec. rewrite Script_unmount_done; [done|].
    intros cl Hcl. rewrite Hc in Hcl. discriminate.
Qed.

Lemma queries_idle_fires (n : nat) (w : World) :
  queries (exec (idle_fires n) w) = queries w.
Proof.
  destruct (idleCallbacks w !! n) as [c|] eqn:Hn.
  - destruct (closures w !! c) as [[props script mounted]|] eqn:Hc.
    + unfold exec. rewrite (idle_fires_run n c props script mounted) by done.
      cbn [snd]. rewrite queries_inject_assign. by destruct w.
    + unfold exec, idle_fires. rewrite bind_run. unfold get_world at 1 2.
      cbn [fst snd]. rewrite Hn, Hc. by destruct w.
  - unfold exec, idle_fires. rewrite bind_run. unfold get_world at 1 2.
    cbn [fst snd]. by rewrite Hn.
Qed.

Lemma Script_render_declarative (props : ScriptProps) :
  strict_eq (props_strategy props) preHydrate
  || strict_eq (props_strategy props) experimentalPartytown = true ->
  exists a, Script_render props =
    ScriptElement a (if truthy (resolveInlineScript props)
                     then Some (resolveInlineScript props) else None).
Proof.
  intros Hs. unfold Script_render. rewrite Hs.
  destruct (truthy (resolveInlineScript props)); eexists; reflexivity.
Qed.

(** C3, as stated, fails: with [alreadyLoaded "a.js"] true the script
    element is rendered all the same, and the one query the mount makes
    names the page, not the script. *)
Lemma source_loaded_still_rendered :
  props_strategy preHydrate_a = preHydrate
  /\ obj_get "src" preHydrate_a = VString "a.js"
  /\ alreadyLoaded page_with_a "a.js" = true
  /\ Script_render preHydrate_a =
       ScriptElement [("async", VBool true); ("src", VString "a.js");
                      ("data-strategy", VString "pre-hydrate")] None
  /\ queries (exec (Script_effect preHydrate_a) page_with_a) =
       [GetEntriesByName "https://example.com/"]
  /\ GetEntriesByName "a.js" ∉ calls (exec (Script_effect preHydrate_a) page_with_a).
Proof.
  split; [reflexivity|]. split; [reflexivity|]. split; [vm_compute; reflexivity|].
  split; [vm_compute; reflexivity|]. split; [vm_compute; reflexivity|].
  apply (bool_decide_eq_false_1 _). vm_compute. reflexivity.
Qed.

Lemma queries_step (e : Event) (w : World) :
  queries (exec (step e) w) =
  queries w ++
  match e with
  | Mount props =>
      if strict_eq (props_strategy props) preHydrate
      then [GetEntriesByName (location_href w)] else []
  | _ => []
  end.
Proof.
  destruct e as [props|c|n]; cbn [step].
  - unfold exec. rewrite bind_run. cbn [snd mret M_ret].
    rewrite Script_effect_run. cbn [snd].
    destruct (strict_eq (props_strategy props) preHydrate).
    + destruct (alreadyLoaded w (location_href w)); rewrite ?queries_inject_assign;
        unfold queries; destruct w; world_norm; by rewrite filter_app.
    + rewrite app_nil_r.
      destruct (strict_eq (props_strategy props) postHydrate);
        [rewrite queries_inject_assign; by destruct w|].
      destruct (strict_eq (props_strategy props) idle); [|by destruct w].
      unfold queries. destruct w; world_norm. rewrite filter_app. cbn.
      by rewrite app_nil_r.
  - rewrite queries_Script_unmount. by rewrite app_nil_r.
  - rewrite queries_idle_fires. by rewrite app_nil_r.
Qed.

(** The calls a pre-hydrate mount makes. *)
Lemma preHydrate_mount_calls (props : ScriptProps) (w : World) :
  props_strategy props = preHydrate ->
  calls (exec (Script_effect props) w) =
  calls w ++ [GetEntriesByName (location_href w)] ++
  if alreadyLoaded w (location_href w) || bool_decide (script_key props ∈ scriptCache w)
  then [] else inject_calls props (length (elements w)).
Proof.
  intros Hs. unfold exec. rewrite Script_effect_run. cbn [snd]. strategy_is Hs.
  destruct (alreadyLoaded w (location_href w)); cbn [orb].
  - by destruct w.
  - rewrite calls_inject_assign. destruct w; world_norm. unfold closure_created.
    world_norm. by rewrite <- app_assoc.
Qed.

(** C3, amended: a pre-hydrate descriptor is always rendered as a script
    element, whatever the timeline holds.  Its mount asks the timeline
    once, about the url of the page; when the page is on the timeline the
    mount does nothing more, and when it is not the mount runs
    [injectScript].  No other event queries the timeline. *)
Theorem preHydrate_gate (props : ScriptProps) (w : World) :
  props_strategy props = preHydrate ->
  let w1 := exec (Script_effect props) w in
  (exists a, Script_render props =
     ScriptElement a (if truthy (resolveInlineScript props)
                      then Some (resolveInlineScript props) else None))
  /\ queries w1 = queries w ++ [GetEntriesByName (location_href w)]
  /\ (if alreadyLoaded w (location_href w) then
        calls w1 = calls w ++ [GetEntriesByName (location_href w)]
        /\ body w1 = body w /\ elements w1 = elements w
        /\ scriptCache w1 = scriptCache w
      else
        w1 = inject_assign (length (closures w)) props
               (with_calls (calls w ++ [GetEntriesByName (location_href w)])
                           (closure_created props w))
        /\ calls w1 =
             calls w ++ [GetEntriesByName (location_href w)] ++
             if bool_decide (script_key props ∈ scriptCache w) then []
             else inject_calls props (length (elements w)))
  /\ (forall e w',
        queries (exec (step e) w') =
        queries w' ++
        match e with
        | Mount p =>
            if strict_eq (props_strategy p) preHydrate
            then [GetEntriesByName (location_href w')] else []
        | _ => []
        end).
Proof.
  intros Hs w1. split; [|split; [|split]].
  - apply Script_render_declarative. by strategy_is Hs.
  - pose proof (queries_step (Mount props) w) as Hq. cbn [step] in Hq.
    unfold exec in Hq. rewrite bind_run in Hq. cbn [snd mret M_ret] in Hq.
    fold (exec (Script_effect props) w) in Hq. fold w1 in Hq. rewrite Hq.
    by strategy_is Hs.
  - pose proof (preHydrate_mount_calls props w Hs) as Hcalls. fold w1 in Hcalls.
    assert (Hw1 : w1 =
      if alreadyLoaded w (location_href w)
      then with_calls (calls w ++ [GetEntriesByName (location_href w)])
                      (closure_created props w)
      else inject_assign (length (closures w)) props
             (with_calls (calls w ++ [GetEntriesByName (location_href w)])
                         (closure_created props w))).
    { unfold w1, exec. rewrite Script_effect_run. cbn [snd]. by strategy_is Hs. }
    destruct (alreadyLoaded w (location_href w)); cbn [orb] in Hcalls.
    + rewrite Hw1. by destruct w.
    + done.
  - apply queries_step.
Qed.

Lemma preHydrate_gate_witness :
  props_strategy preHydrate_a = preHydrate
  /\ queries (exec (Script_effect preHydrate_a) page_with_a) =
       queries page_with_a ++ [GetEntriesByName (location_href page_with_a)].
Proof.
  split; [reflexivity|].
  exact (proj1 (proj2 (preHydrate_gate preHydrate_a page_with_a eq_refl))).
Defined.

(** C2, as stated, fails: a pre-hydrate descriptor mounted on a page that
    is not on the timeline (client-side navigation) is rendered as a
    script element and, besides, inserted into the document by the mount
    effect. *)
Lemma preHydrate_mutates_document :
  props_strategy preHydrate_a = preHydrate
  /\ Script_render preHydrate_a <> Fragment
  /\ mutations (exec (Script_effect preHydrate_a) page0) =
       [CreateElement "script" 0; SetDatasetStrategy 0 (VString "pre-hydrate");
        SetSrc 0 (VString "a.js"); AppendChild 0]
  /\ body (exec (Script_effect preHydrate_a) page0) = [0].
Proof.
  split; [reflexivity|]. split; [vm_compute; discriminate|].
  split; vm_compute; reflexivity.
Qed.

Lemma strategy_value_inj (s s' : ScriptStrategy) :
  strategy_value s = strategy_value s' -> s = s'.
Proof. destruct s, s'; first [reflexivity | discriminate]. Qed.

(** C2, amended: the effective strategy of a descriptor is one member of
    the enumeration, and its row decides what happens.
    experimental-partytown: rendered, and the mount makes no host call.
    pre-hydrate: rendered; the mount changes nothing in the document when
    the page is on the timeline and runs [injectScript] otherwise.
    post-hydrate: renders nothing; the mount runs [injectScript].
    idle: renders nothing; the mount schedules the idle callback. *)
Theorem strategy_partition (props : ScriptProps) (s : ScriptStrategy) (w : World) :
  props_strategy props = s ->
  let c := length (closures w) in
  let h := length (elements w) in
  let w1 := exec (Script_effect props) w in
  let rendered :=
    exists a, Script_render props =
      ScriptElement a (if truthy (resolveInlineScript props)
                       then Some (resolveInlineScript props) else None) in
  let injected :=
    if bool_decide (script_key props ∈ scriptCache w) then []
    else inject_calls props h in
  (forall s' : ScriptStrategy, props_strategy props = s' -> s' = s)
  /\ match s with
     | experimentalPartytown =>
         rendered /\ calls w1 = calls w /\ body w1 = body w /\ elements w1 = elements w
     | preHydrate =>
         rendered
         /\ if alreadyLoaded w (location_href w) then
              mutations w1 = mutations w /\ body w1 = body w /\ elements w1 = elements w
            else
              calls w1 = calls w ++ [GetEntriesByName (location_href w)] ++ injected
     | postHydrate =>
         Script_render props = Fragment /\ calls w1 = calls w ++ injected
     | idle =>
         Script_render props = Fragment
         /\ calls w1 = calls w ++ [RequestIdleCallback c]
         /\ body w1 = body w /\ elements w1 = elements w
     end.
Proof.
  intros Hs c h w1 rendered injected. split.
  - intros s' Hs'. rewrite Hs in Hs'. symmetry. by apply strategy_value_inj.
  - assert (Hrun : w1 = (Script_effect props w).2) by done.
    rewrite Script_effect_run in Hrun. cbn [snd] in Hrun. fold c in Hrun.
    assert (Hrender : Script_render props =
      if strict_eq (props_strategy props) preHydrate
         || strict_eq (props_strategy props) experimentalPartytown
      then Script_render props else Fragment).
    { unfold Script_render. by destruct (_ || _). }
    destruct s; strategy_is Hs; revert Hrun Hrender; strategy_is Hs;
      intros Hrun Hrender.
    + split; [apply Script_render_declarative; by strategy_is Hs|].
      pose proof (preHydrate_mount_calls props w Hs) as Hcalls. fold w1 in Hcalls.
      destruct (alreadyLoaded w (location_href w)); cbn [orb] in Hcalls.
      * rewrite Hrun. unfold mutations. destruct w; world_norm.
        rewrite filter_app. cbn. by rewrite app_nil_r.
      * done.
    + split; [done|]. rewrite Hrun, calls_inject_assign. by destruct w.
    + split; [done|]. rewrite Hrun. by destruct w.
    + split; [apply Script_render_declarative; by strategy_is Hs|].
      rewrite Hrun. by destruct w.
Qed.

Lemma strategy_partition_witness :
  props_strategy scenario_A = postHydrate
  /\ Script_render scenario_A = Fragment.
Proof.
  split; [reflexivity|].
  exact (proj1 (proj2 (strategy_partition scenario_A postHydrate page0 eq_refl))).
Defined.

(** * Further properties of the engine *)

(** ** Mounts and unmounts in closed form *)

Lemma postHydrate_mount_miss (props : ScriptProps) (w : World) :
  props_strategy props = postHydrate ->
  script_key props ∉ scriptCache w ->
  exec (Script_effect props) w =
  with_closures (closures w ++ [mkClosure props (Some (length (elements w))) true])
    (injected_world props w).
Proof.
  intros Hs Hk. unfold exec. rewrite Script_effect_run. cbn [snd]. strategy_is Hs.
  rewrite inject_assign_miss by (by destruct w).
  unfold closure_created, injected_world. destruct w; world_norm.
  by rewrite alter_last.
Qed.

Lemma postHydrate_mount_hit (props : ScriptProps) (w : World) :
  props_strategy props = postHydrate ->
  script_key props ∈ scriptCache w ->
  exec (Script_effect props) w = closure_created props w.
Proof.
  intros Hs Hk. unfold exec. rewrite Script_effect_run. cbn [snd]. strategy_is Hs.
  rewrite inject_assign_hit by (by destruct w).
  unfold closure_created. destruct w; world_norm.
  by rewrite alter_last.
Qed.

Lemma unmount_owner (c : nat) (props : ScriptProps) (h : handle) (w : World) :
  closures w !! c = Some (mkClosure props (Some h) true) ->
  exec (Script_unmount c) w =
  mkWorld (scriptCache w)
          (alter (detach_listeners props) h (elements w))
          (filter (fun h' => h' ≠ h) (body w))
          (location_href w) (perfEntries w)
          (alter (fun cl => mkClosure (cl_props cl) (cl_script cl) false) c (closures w))
          (idleCallbacks w)
          (calls w ++ cleanup_calls props h).
Proof.
  intros Hc. unfold exec. rewrite (Script_unmount_run c props (Some h)) by done.
  rewrite cleanup_some. by destruct w.
Qed.

Lemma unmount_nothing_owned (c : nat) (props : ScriptProps) (w : World) :
  closures w !! c = Some (mkClosure props None true) ->
  exec (Script_unmount c) w =
  with_closures
    (alter (fun cl => mkClosure (cl_props cl) (cl_script cl) false) c (closures w)) w.
Proof.
  intros Hc. unfold exec. rewrite (Script_unmount_run c props None) by done.
  by rewrite cleanup_none.
Qed.

(** ** How insertions compose *)

(** X1: two calls of [injectScript] whose keys differ and are both absent
    from the cache each create and append an element, one after the other,
    and both keys end up cached; dedup is by key only, so the same source
    under an id and without one is inserted twice. *)
Theorem distinct_keys_both_inserted (p1 p2 : ScriptProps) (w : World) :
  script_key p1 ∉ scriptCache w ->
  script_key p2 ∉ scriptCache w ->
  script_key p1 ≠ script_key p2 ->
  let h := length (elements w) in
  let w1 := exec (injectScript p1) w in
  let w2 := exec (injectScript p2) w1 in
  (injectScript p1 w).1 = Some h
  /\ (injectScript p2 w1).1 = Some (S h)
  /\ elements w2 = elements w ++ [injected_element p1; injected_element p2]
  /\ appended w2 = S (S (appended w))
  /\ scriptCache w2 = {[script_key p2]} ∪ ({[script_key p1]} ∪ scriptCache w)
  /\ size (scriptCache w2) = S (S (size (scriptCache w)))
  /\ (body_wf w -> body w2 = body w ++ [h; S h]).
Proof.
  intros Hk1 Hk2 Hne h w1 w2.
  assert (Hw1 : w1 = injected_world p1 w).
  { unfold w1, exec. by rewrite injectScript_miss. }
  assert (Hk2' : script_key p2 ∉ scriptCache w1).
  { rewrite Hw1. unfold injected_world; cbn [scriptCache].
    rewrite elem_of_union, elem_of_singleton. intros [Heq|Hin]; [by apply Hne|done]. }
  assert (Hlen : length (elements w1) = S h).
  { rewrite Hw1. unfold injected_world; cbn [elements]. rewrite length_app. cbn. lia. }
  assert (Hw2 : w2 = injected_world p2 w1).
  { unfold w2, exec. by rewrite injectScript_miss. }
  split; [by rewrite injectScript_miss|].
  split; [rewrite injectScript_miss by done; cbn [fst]; by rewrite Hlen|].
  split; [|split; [|split; [|split]]].
  - rewrite Hw2. unfold injected_world at 1; cbn [elements].
    rewrite Hw1. unfold injected_world; cbn [elements]. by rewrite <- app_assoc.
  - rewrite Hw2, appended_injected_world, Hw1, appended_injected_world. done.
  - rewrite Hw2. unfold injected_world at 1; cbn [scriptCache].
    rewrite Hw1. by unfold injected_world; cbn [scriptCache].
  - rewrite Hw2. unfold injected_world at 1; cbn [scriptCache].
    rewrite size_union by set_solver. rewrite size_singleton.
    rewrite Hw1. unfold injected_world; cbn [scriptCache].
    rewrite size_union by set_solver. by rewrite size_singleton.
  - intros Hwf. rewrite Hw2. unfold injected_world at 1; cbn [body]. rewrite Hlen.
    rewrite Hw1. unfold injected_world; cbn [body]. fold h.
    rewrite (filter_ne_fresh h (body w)) by done.
    rewrite filter_ne_fresh; [by rewrite <- app_assoc|].
    apply Forall_app. split.
    + eapply Forall_impl; [exact Hwf|]. intros x Hx. cbn in Hx. fold h in Hx. lia.
    + constructor; [lia | constructor].
Qed.

Lemma distinct_keys_both_inserted_witness :
  (script_key with_id_x ∉ scriptCache page0)
  /\ (script_key only_src ∉ scriptCache page0)
  /\ script_key with_id_x ≠ script_key only_src
  /\ obj_get "src" with_id_x = obj_get "src" only_src
  /\ appended (exec (injectScript only_src) (exec (injectScript with_id_x) page0)) =
       S (S (appended page0)).
Proof.
  split; [apply not_elem_of_empty|]. split; [apply not_elem_of_empty|].
  split; [discriminate|]. split; [reflexivity|].
  destruct (distinct_keys_both_inserted with_id_x only_src page0)
    as (_ & _ & _ & Happ & _);
    [apply not_elem_of_empty | apply not_elem_of_empty | discriminate |].
  exact Happ.
Defined.

(** X2: a post-hydrate script that was inserted and then removed by its
    unmount is not inserted again when the component mounts again on the
    same page: the key is still cached, so the second mount makes no host
    call and the body stays without the element. *)
Theorem remount_never_reinserts (props : ScriptProps) (w : World) :
  props_strategy props = postHydrate ->
  script_key props ∉ scriptCache w ->
  body_wf w ->
  let c := length (closures w) in
  let h := length (elements w) in
  let w1 := exec (Script_effect props) w in
  let w2 := exec (Script_unmount c) w1 in
  let w3 := exec (Script_effect props) w2 in
  body w1 = body w ++ [h]
  /\ body w2 = body w
  /\ script_key props ∈ scriptCache w2
  /\ body w3 = body w
  /\ calls w3 = calls w2
  /\ elements w3 = elements w2
  /\ closures w3 !! S c = Some (mkClosure props None true).
Proof.
  intros Hs Hk Hwf c h w1 w2 w3.
  assert (Hw1 : w1 =
    with_closures (closures w ++ [mkClosure props (Some h) true])
      (injected_world props w)).
  { unfold w1. by rewrite postHydrate_mount_miss. }
  assert (Hc1 : closures w1 !! c = Some (mkClosure props (Some h) true)).
  { rewrite Hw1. destruct w; world_norm. by apply list_lookup_middle. }
  assert (Hb1 : body w1 = body w ++ [h]).
  { rewrite Hw1. unfold injected_world, body_wf in *. subst h.
    destruct w; world_norm. cbn [body elements] in Hwf.
    by rewrite filter_ne_fresh. }
  assert (Hw2 : w2 = _) by (unfold w2; by rewrite (unmount_owner c props h)).
  assert (Hk2 : script_key props ∈ scriptCache w2).
  { rewrite Hw2, Hw1. unfold injected_world. destruct w; world_norm. set_solver. }
  assert (Hb2 : body w2 = body w).
  { rewrite Hw2. cbn [body]. rewrite Hb1, filter_app.
    rewrite filter_cons_False by (intros Hne; by apply Hne).
    rewrite filter_nil, app_nil_r. by apply filter_ne_fresh. }
  assert (Hlen2 : length (closures w2) = S c).
  { rewrite Hw2. cbn [closures]. rewrite length_alter, Hw1.
    destruct w; world_norm. rewrite length_app. cbn. lia. }
  assert (Hw3 : w3 = closure_created props w2).
  { unfold w3. by rewrite postHydrate_mount_hit. }
  split; [done|]. split; [done|]. split; [done|].
  rewrite Hw3. unfold closure_created.
  split; [by destruct w2|]. split; [by destruct w2|]. split; [by destruct w2|].
  rewrite <- Hlen2. destruct w2; world_norm. by apply list_lookup_middle.
Qed.

Lemma remount_never_reinserts_witness :
  props_strategy scenario_A = postHydrate
  /\ (script_key scenario_A ∉ scriptCache page0)
  /\ body_wf page0
  /\ body (exec (Script_effect scenario_A)
            (exec (Script_unmount (length (closures page0)))
               (exec (Script_effect scenario_A) page0))) = body page0.
Proof.
  split; [reflexivity|]. split; [apply not_elem_of_empty|].
  assert (Hwf : body_wf page0) by constructor.
  split; [exact Hwf|].
  destruct (remount_never_reinserts scenario_A page0 eq_refl
              (not_elem_of_empty _) Hwf) as (_ & _ & _ & Hbody & _).
  exact Hbody.
Defined.

(** X3: when two post-hydrate components mount descriptors with the same
    key, the first owns the one element (built from its props alone) and
    the second owns nothing.  Unmounting the second changes neither
    document nor call log; unmounting the first removes the element from
    the body although the second is still mounted. *)
Theorem shared_key_teardown_by_owner (p q : ScriptProps) (w : World) :
  props_strategy p = postHydrate ->
  props_strategy q = postHydrate ->
  script_key p = script_key q ->
  script_key p ∉ scriptCache w ->
  body_wf w ->
  let c1 := length (closures w) in
  let c2 := S c1 in
  let h := length (elements w) in
  let w2 := exec (Script_effect q) (exec (Script_effect p) w) in
  closures w2 !! c1 = Some (mkClosure p (Some h) true)
  /\ closures w2 !! c2 = Some (mkClosure q None true)
  /\ elements w2 = elements w ++ [injected_element p]
  /\ body w2 = body w ++ [h]
  /\ body (exec (Script_unmount c2) w2) = body w ++ [h]
  /\ calls (exec (Script_unmount c2) w2) = calls w2
  /\ body (exec (Script_unmount c1) w2) = body w
  /\ closures (exec (Script_unmount c1) w2) !! c2 = Some (mkClosure q None true).
Proof.
  intros Hp Hq Hpq Hk Hwf c1 c2 h w2.
  assert (Hw2 : w2 =
    with_closures (closures w ++ [mkClosure p (Some h) true; mkClosure q None true])
      (injected_world p w)).
  { unfold w2. rewrite (postHydrate_mount_miss p) by done.
    rewrite postHydrate_mount_hit; [|done|].
    - unfold closure_created. destruct w; world_norm. by rewrite <- app_assoc.
    - rewrite <- Hpq. unfold injected_world. destruct w; world_norm.
      apply elem_of_union_l. by apply elem_of_singleton. }
  assert (Hc1 : closures w2 !! c1 = Some (mkClosure p (Some h) true)).
  { rewrite Hw2. destruct w; world_norm. by apply list_lookup_middle. }
  assert (Hc2 : closures w2 !! c2 = Some (mkClosure q None true)).
  { rewrite Hw2. subst c2 c1. destruct w; world_norm.
    change (closures0 ++ [mkClosure p (Some h) true; mkClosure q None true])
      with (closures0 ++ [mkClosure p (Some h) true] ++ [mkClosure q None true]).
    rewrite app_assoc. apply list_lookup_middle. rewrite length_app. cbn. lia. }
  assert (Hb2 : body w2 = body w ++ [h]).
  { rewrite Hw2. unfold injected_world, body_wf in *. subst h.
    destruct w; world_norm. cbn [body elements] in Hwf. by rewrite filter_ne_fresh. }
  split; [done|]. split; [done|].
  split; [rewrite Hw2; by destruct w|]. split; [done|].
  rewrite (unmount_nothing_owned c2 q) by done.
  rewrite (unmount_owner c1 p h) by done. cbn [body closures].
  split; [by destruct w2|]. split; [by destruct w2|]. split.
  - rewrite Hb2, filter_app.
    rewrite filter_cons_False by (intros Hne; by apply Hne).
    rewrite filter_nil, app_nil_r. by apply filter_ne_fresh.
  - rewrite list_lookup_alter_ne by (subst c2; lia). done.
Qed.

Lemma shared_key_teardown_by_owner_witness :
  props_strategy with_id_x = postHydrate
  /\ script_key with_id_x = script_key with_id_x
  /\ (script_key with_id_x ∉ scriptCache page0)
  /\ body_wf page0
  /\ body (exec (Script_unmount (length (closures page0)))
            (exec (Script_effect with_id_x) (exec (Script_effect with_id_x) page0))) =
     body page0.
Proof.
  split; [reflexivity|]. split; [reflexivity|]. split; [apply not_elem_of_empty|].
  assert (Hwf : body_wf page0) by constructor.
  split; [exact Hwf|].
  destruct (shared_key_teardown_by_owner with_id_x with_id_x page0 eq_refl eq_refl
              eq_refl (not_elem_of_empty _) Hwf) as (_ & _ & _ & _ & _ & _ & Hbody & _).
  exact Hbody.
Defined.

(** ** What holds in every world reached from a fresh page *)

Lemma page_inv_fresh (href : string) (entries : list string) :
  page_inv (fresh_page href entries).
Proof.
  unfold page_inv, fresh_page, appended, body_wf, owns; cbn.
  split; [apply size_empty|]. split; [done|]. split; [constructor|].
  split; [constructor|]. split.
  - intros c h (cl & Hc & _). by rewrite lookup_nil in Hc.
  - intros c1 c2 h (cl & Hc & _). by rewrite lookup_nil in Hc.
Qed.

(** A step that leaves cache, number of elements and number of appends
    alone, only drops elements from the body and gives no closure a new
    element, keeps the invariant. *)
Lemma page_inv_frame (w w' : World) :
  scriptCache w' = scriptCache w ->
  length (elements w') = length (elements w) ->
  appended w' = appended w ->
  (forall h, h ∈ body w' -> h ∈ body w) ->
  (NoDup (body w) -> NoDup (body w')) ->
  (forall c h, owns w' c h -> owns w c h) ->
  page_inv w -> page_inv w'.
Proof.
  intros Hcache Hlen Happ Hsub Hnd Hown (I1 & I2 & I3 & I4 & I5 & I6).
  unfold page_inv, body_wf in *. rewrite Hcache, Hlen, Happ.
  split; [done|]. split; [done|]. split; [|split; [auto|split]].
  - apply Forall_forall. intros h Hh. rewrite Forall_forall in I3. auto.
  - intros c h Hc. eauto.
  - intros c1 c2 h H1 H2. eauto.
Qed.

Lemma owns_alter_mounted (w : World) (c c' : nat) (h : handle) (cs : list Closure) :
  cs = alter (fun cl => mkClosure (cl_props cl) (cl_script cl) false) c (closures w) ->
  (exists cl, cs !! c' = Some cl /\ cl_script cl = Some h) -> owns w c' h.
Proof.
  intros -> (cl & Hc & Hs). unfold owns.
  destruct (decide (c = c')) as [->|Hne].
  - rewrite list_lookup_alter_eq in Hc.
    destruct (closures w !! c') as [cl0|]; [|discriminate].
    cbn in Hc. inversion Hc; subst cl. cbn in Hs. eauto.
  - rewrite list_lookup_alter_ne in Hc by done. eauto.
Qed.

Lemma owns_alter_script (w : World) (c c' : nat) (r : option handle) (h : handle)
    (cs : list Closure) :
  cs = alter (fun cl => mkClosure (cl_props cl) r (cl_mounted cl)) c (closures w) ->
  (exists cl, cs !! c' = Some cl /\ cl_script cl = Some h) ->
  (c' = c /\ r = Some h) \/ (c' ≠ c /\ owns w c' h).
Proof.
  intros -> (cl & Hc & Hs). unfold owns.
  destruct (decide (c = c')) as [->|Hne].
  - rewrite list_lookup_alter_eq in Hc.
    destruct (closures w !! c') as [cl0|]; [|discriminate].
    cbn in Hc. inversion Hc; subst cl. cbn in Hs. by left.
  - rewrite list_lookup_alter_ne in Hc by done. right. eauto.
Qed.

Lemma size_add_fresh (k : Value) (s : gset Value) :
  k ∉ s -> size ({[k]} ∪ s) = S (size s).
Proof.
  intros Hk. rewrite size_union by (by apply disjoint_singleton_l).
  by rewrite size_singleton.
Qed.

Lemma page_inv_inject_assign (c : nat) (props : ScriptProps) (w : World) :
  page_inv w -> page_inv (inject_assign c props w).
Proof.
  intros Hinv. destruct (decide (script_key props ∈ scriptCache w)) as [Hk|Hk].
  - rewrite inject_assign_hit by done.
    apply (page_inv_frame w); try (by destruct w).
    intros c' h Hown. unfold owns in Hown.
    destruct (owns_alter_script w c c' None h _ eq_refl) as [[_ ?]|[_ ?]];
      [by destruct w | done | done].
  - rewrite inject_assign_miss by done.
    destruct Hinv as (I1 & I2 & I3 & I4 & I5 & I6).
    unfold page_inv, body_wf.
    assert (Hown : forall c' h',
      owns (with_closures
              (alter (fun cl => mkClosure (cl_props cl) (Some (length (elements w)))
                                          (cl_mounted cl)) c (closures w))
              (injected_world props w)) c' h' ->
      (c' = c /\ h' = length (elements w)) \/ (c' ≠ c /\ owns w c' h')).
    { intros c' h' Hc'.
      destruct (owns_alter_script w c c' (Some (length (elements w))) h' _ eq_refl)
        as [[-> Heq]|[? ?]]; [exact Hc' | | right; split; assumption].
      left. by inversion Heq. }
    split; [|split; [|split; [|split; [|split]]]].
    + unfold injected_world. destruct w; world_norm. cbn [scriptCache elements] in *.
      rewrite size_add_fresh by done. rewrite length_app. cbn. lia.
    + transitivity (appended (injected_world props w)); [by destruct w|].
      rewrite appended_injected_world, I2. unfold injected_world.
      destruct w; world_norm. rewrite length_app. cbn. lia.
    + unfold injected_world, body_wf in *. destruct w; world_norm.
      cbn [body elements] in *. rewrite filter_ne_fresh by done.
      rewrite length_app. cbn. apply Forall_app. split.
      * eapply Forall_impl; [exact I3|]. intros x Hx. cbn in Hx. lia.
      * constructor; [lia | constructor].
    + unfold injected_world, body_wf in *. destruct w; world_norm.
      cbn [body elements] in *. rewrite filter_ne_fresh by done.
      apply NoDup_app. split; [done|]. split; [|apply NoDup_singleton].
      intros x Hx Hx'. apply list_elem_of_singleton in Hx'. subst x.
      rewrite Forall_forall in I3. specialize (I3 _ Hx). lia.
    + intros c' h' Hc'. destruct (Hown c' h' Hc') as [[_ ->]|[_ Ho]].
      * unfold injected_world. destruct w; world_norm. rewrite length_app. cbn. lia.
      * specialize (I5 _ _ Ho). unfold injected_world. destruct w; world_norm.
        cbn [elements] in I5. rewrite length_app. cbn. lia.
    + intros a b h' Ha Hb.
      destruct (Hown a h' Ha) as [[-> Hha]|[Hna Hoa]];
        destruct (Hown b h' Hb) as [[-> Hhb]|[Hnb Hob]]; try done.
      * specialize (I5 _ _ Hob). lia.
      * specialize (I5 _ _ Hoa). lia.
      * eauto.
Qed.

Lemma appended_log (c : HostCall) (w : World) :
  is_append c = false -> appended (with_calls (calls w ++ [c]) w) = appended w.
Proof.
  intros Hc. unfold appended. destruct w; world_norm. rewrite filter_app.
  rewrite filter_cons_False by (by apply Is_true_false_2).
  by rewrite filter_nil, app_nil_r.
Qed.

Lemma page_inv_closure_created (props : ScriptProps) (w : World) :
  page_inv w -> page_inv (closure_created props w).
Proof.
  apply page_inv_frame; try (by destruct w).
  intros c h (cl & Hc & Hs). unfold owns.
  unfold closure_created in Hc. destruct w; world_norm. cbn [closures] in *.
  apply lookup_app_Some in Hc as [Hc|[_ Hc]]; [eauto|].
  apply list_lookup_singleton_Some in Hc as [_ <-]. discriminate.
Qed.

Lemma page_inv_log (c : HostCall) (w : World) :
  is_append c = false -> page_inv w -> page_inv (with_calls (calls w ++ [c]) w).
Proof.
  intros Hc. apply page_inv_frame; try (by destruct w).
  by apply appended_log.
Qed.

Lemma page_inv_idleCallbacks (q : list nat) (w : World) :
  page_inv w -> page_inv (with_idleCallbacks q w).
Proof. apply page_inv_frame; by destruct w. Qed.

Lemma filter_append_cleanup_calls (props : ScriptProps) (h : handle) :
  filter is_append (cleanup_calls props h) = [].
Proof.
  unfold cleanup_calls.
  repeat match goal with |- context [truthy ?v] => destruct (truthy v) end;
    reflexivity.
Qed.

Lemma page_inv_Script_unmount (c : nat) (w : World) :
  page_inv w -> page_inv (exec (Script_unmount c) w).
Proof.
  destruct (closures w !! c) as [[props script [|]]|] eqn:Hc.
  - destruct script as [h|].
    + rewrite (unmount_owner c props h) by done.
      apply page_inv_frame; cbn [scriptCache elements body closures calls].
      * done.
      * apply length_alter.
      * unfold appended; cbn [calls].
        by rewrite filter_app, filter_append_cleanup_calls, app_nil_r.
      * intros h' Hh'. by apply list_elem_of_filter in Hh' as [_ ?].
      * apply NoDup_filter.
      * intros c' h' Hown. by apply (owns_alter_mounted w c c' h' _ eq_refl).
    + rewrite (unmount_nothing_owned c props) by done.
      apply page_inv_frame; try (by destruct w).
      intros c' h' Hown. apply (owns_alter_mounted w c c' h' _ eq_refl).
      by destruct w.
  - unfold exec. rewrite Script_unmount_done; [done|].
    intros cl Hcl. rewrite Hc in Hcl. by inversion Hcl.
  - unfold exec. rewrite Script_unmount_done; [done|].
    intros cl Hcl. rewrite Hc in Hcl. discriminate.
Qed.

Lemma page_inv_idle_fires (n : nat) (w : World) :
  page_inv w -> page_inv (exec (idle_fires n) w).
Proof.
  intros Hinv. destruct (idleCallbacks w !! n) as [c|] eqn:Hn.
  - destruct (closures w !! c) as [[props script mounted]|] eqn:Hc.
    + unfold exec. rewrite (idle_fires_run n c props script mounted) by done.
      cbn [snd]. by apply page_inv_inject_assign, page_inv_idleCallbacks.
    + unfold exec, idle_fires. rewrite bind_run. unfold get_world at 1 2.
      cbn [fst snd]. rewrite Hn, Hc. rewrite bind_run. unfold modify, mret, M_ret.
      cbn [fst snd]. by apply page_inv_idleCallbacks.
  - unfold exec, idle_fires. rewrite bind_run. unfold get_world at 1 2.
    cbn [fst snd]. by rewrite Hn.
Qed.

Lemma page_inv_Script_effect (props : ScriptProps) (w : World) :
  page_inv w -> page_inv (exec (Script_effect props) w).
Proof.
  intros Hinv. unfold exec. rewrite Script_effect_run. cbn [snd].
  pose proof (page_inv_closure_created props w Hinv) as H0.
  assert (Hq : page_inv
    (with_calls (calls w ++ [GetEntriesByName (location_href w)])
                (closure_created props w))).
  { apply (page_inv_log (GetEntriesByName (location_href w))) in H0; [|done].
    by destruct w. }
  assert (Hi : page_inv
    (with_idleCallbacks (idleCallbacks w ++ [length (closures w)])
       (with_calls (calls w ++ [RequestIdleCallback (length (closures w))])
                   (closure_created props w)))).
  { apply (page_inv_log (RequestIdleCallback (length (closures w)))) in H0; [|done].
    apply (page_inv_idleCallbacks (idleCallbacks w ++ [length (closures w)])) in H0.
    by destruct w. }
  repeat case_match; auto using page_inv_inject_assign.
Qed.

Lemma page_inv_step (e : Event) (w : World) :
  page_inv w -> page_inv (exec (step e) w).
Proof.
  destruct e as [props|c|n]; cbn [step].
  - intros Hinv. unfold exec. rewrite bind_run. cbn [snd mret M_ret].
    by apply page_inv_Script_effect.
  - apply page_inv_Script_unmount.
  - apply page_inv_idle_fires.
Qed.

Lemma page_inv_run (es : list Event) (w : World) :
  page_inv w -> page_inv (run es w).
Proof.
  revert w. induction es as [|e es IH]; intros w Hinv; cbn [run fold_left]; [done|].
  apply IH. by apply page_inv_step.
Qed.

Lemma NoDup_bounded_length (n : nat) (l : list nat) :
  NoDup l -> Forall (fun x => x < n) l -> length l ≤ n.
Proof.
  intros Hnd Hall. rewrite <- (length_seq n 0).
  apply submseteq_length, NoDup_submseteq; [done|].
  intros x Hx. rewrite Forall_forall in Hall. apply elem_of_seq.
  specialize (Hall x Hx). lia.
Qed.

(** X4: whatever sequence of mounts, unmounts and idle callbacks a freshly
    loaded page goes through, the elements created, the [appendChild]
    calls made and the keys cached are equally many (one insertion per
    key, ever), and the body holds distinct created elements, hence at
    most as many as there are cached keys. *)
Theorem one_insertion_per_key (es : list Event) (href : string) (entries : list string) :
  let w := run es (fresh_page href entries) in
  length (elements w) = size (scriptCache w)
  /\ appended w = size (scriptCache w)
  /\ NoDup (body w)
  /\ Forall (fun h => h < length (elements w)) (body w)
  /\ length (body w) ≤ size (scriptCache w).
Proof.
  intros w.
  destruct (page_inv_run es _ (page_inv_fresh href entries))
    as (I1 & I2 & I3 & I4 & _).
  fold w in I1, I2, I3, I4. unfold body_wf in I3.
  split; [done|]. split; [by rewrite I2|]. split; [done|]. split; [done|].
  rewrite I1. by apply NoDup_bounded_length.
Qed.

Lemma body_after_unmount (c : nat) (w : World) :
  body (exec (Script_unmount c) w) =
  match closures w !! c with
  | Some (mkClosure _ (Some h) true) => filter (fun h' => h' ≠ h) (body w)
  | _ => body w
  end.
Proof.
  destruct (closures w !! c) as [[props script [|]]|] eqn:Hc.
  - destruct script as [h|].
    + by rewrite (unmount_owner c props h).
    + rewrite (unmount_nothing_owned c props) by done. by destruct w.
  - unfold exec. rewrite Script_unmount_done; [by destruct script|].
    intros cl Hcl. rewrite Hc in Hcl. by inversion Hcl.
  - unfold exec. rewrite Script_unmount_done; [done|].
    intros cl Hcl. rewrite Hc in Hcl. discriminate.
Qed.

(** X5: on a page reached from a fresh load, no element is held by two
    closures, so the cleanup of one component never takes an element that
    another component's closure holds out of the body. *)
Theorem unmount_spares_other_owners (es : list Event) (href : string)
    (entries : list string) (c1 c2 : nat) (h2 : handle) :
  let w := run es (fresh_page href entries) in
  c1 ≠ c2 -> owns w c2 h2 ->
  ~ owns w c1 h2
  /\ (h2 ∈ body (exec (Script_unmount c1) w) <-> h2 ∈ body w).
Proof.
  intros w Hne Hown.
  destruct (page_inv_run es _ (page_inv_fresh href entries))
    as (_ & _ & _ & _ & _ & Hexcl).
  fold w in Hexcl.
  assert (Hnot : ~ owns w c1 h2).
  { intros Hown1. apply Hne. by apply (Hexcl c1 c2 h2). }
  split; [done|].
  rewrite body_after_unmount.
  destruct (closures w !! c1) as [[props [h1|] [|]]|] eqn:Hc; try done.
  rewrite list_elem_of_filter. split; [by intros [_ ?]|].
  intros Hin. split; [|done]. intros ->. apply Hnot.
  exists (mkClosure props (Some h1) true). done.
Qed.

Lemma unmount_spares_other_owners_witness :
  0 ≠ 1
  /\ owns (run [Mount with_id_x; Mount only_src] (fresh_page "https://example.com/" []))
          1 1
  /\ ~ owns (run [Mount with_id_x; Mount only_src]
               (fresh_page "https://example.com/" [])) 0 1.
Proof.
  assert (Hown : owns (run [Mount with_id_x; Mount only_src]
                         (fresh_page "https://example.com/" [])) 1 1).
  { eexists. split; [vm_compute; reflexivity | reflexivity]. }
  split; [discriminate|]. split; [exact Hown|].
  exact (proj1 (unmount_spares_other_owners [Mount with_id_x; Mount only_src]
                  "https://example.com/" [] 0 1 1 (fun H => O_S 0 H) Hown)).
Defined.

(** ** More on the resolvers and on what is rendered and built *)

Lemma elem_of_keys_obj_set (k k0 : string) (v : Value) (o : Obj) :
  k ∈ keys (obj_set k0 v o) <-> k = k0 \/ k ∈ keys o.
Proof.
  rewrite keys_obj_set. case_bool_decide as Hk0.
  - split; [by right|]. intros [->|?]; done.
  - rewrite elem_of_app, list_elem_of_singleton. tauto.
Qed.

Lemma elem_of_keys_resolveAttributes (props : ScriptProps) (k : string) :
  k ∈ keys (resolveAttributes props) <-> k ∈ keys props /\ handled k = false.
Proof.
  unfold resolveAttributes.
  assert (Hgen : forall acc : Obj,
    k ∈ keys (fold_left (fun attributes kv =>
        if handled kv.1 then attributes else obj_set kv.1 kv.2 attributes) props acc)
    <-> k ∈ keys acc \/ (k ∈ keys props /\ handled k = false)).
  { induction props as [|[k0 v0] props IH]; intros acc; cbn [fold_left fst snd].
    - unfold keys at 3. cbn. rewrite elem_of_nil. tauto.
    - rewrite IH. unfold keys at 4. cbn [fmap list_fmap fst].
      fold (keys props). rewrite elem_of_cons.
      destruct (handled k0) eqn:E.
      + split; [tauto|]. intros [?|[[->|?] ?]]; [tauto|congruence|tauto].
      + rewrite elem_of_keys_obj_set. split; [|intros [?|[[->|?] ?]]; tauto].
        intros [[->|?]|?]; tauto. }
  rewrite Hgen. unfold keys at 1. cbn. rewrite elem_of_nil. tauto.
Qed.

Lemma filter_all {A : Type} (P : A -> Prop) `{!forall x, Decision (P x)} (l : list A) :
  Forall P l -> filter P l = l.
Proof.
  induction 1 as [|x l Hx Hl IH]; [done|].
  rewrite filter_cons_True by done. by f_equal.
Qed.

(** X6: [resolveAttributes] yields an object (no key twice) whose keys are
    the keys of the props that are not handled; applying it again changes
    nothing; and on an object it keeps the unhandled entries as they are,
    values and order included. *)
Theorem resolveAttributes_keeps_unhandled (props : ScriptProps) :
  NoDup (keys (resolveAttributes props))
  /\ (forall k, k ∈ keys (resolveAttributes props) <-> k ∈ keys props /\ handled k = false)
  /\ resolveAttributes (resolveAttributes props) = resolveAttributes props
  /\ (NoDup (keys props) ->
      resolveAttributes props = filter (fun kv => handled kv.1 = false) props).
Proof.
  split; [apply resolveAttributes_NoDup|].
  split; [apply elem_of_keys_resolveAttributes|].
  split; [|apply resolveAttributes_filter].
  rewrite (resolveAttributes_filter (resolveAttributes props))
    by apply resolveAttributes_NoDup.
  apply filter_all, Forall_forall. intros [k v] Hin. cbn.
  apply (resolveAttributes_unhandled props). apply list_elem_of_fmap. by exists (k, v).
Qed.

Lemma resolveAttributes_keeps_unhandled_witness :
  NoDup (keys with_passthrough)
  /\ resolveAttributes with_passthrough =
       [("id", VString "analytics"); ("crossOrigin", VString "anonymous")].
Proof.
  assert (Hnd : NoDup (keys with_passthrough)) by compute_done.
  split; [exact Hnd|].
  destruct (resolveAttributes_keeps_unhandled with_passthrough) as (_ & _ & _ & Hf).
  rewrite (Hf Hnd). reflexivity.
Defined.

Lemma elem_of_keys_obj_spread (k : string) (o1 o2 : Obj) :
  k ∈ keys (obj_spread o1 o2) <-> k ∈ keys o1 \/ k ∈ keys o2.
Proof.
  unfold obj_spread. revert o1.
  induction o2 as [|[k2 v2] o2 IH]; intros o1; cbn [fold_left fst snd].
  - unfold keys at 3. cbn. rewrite elem_of_nil. tauto.
  - rewrite IH, elem_of_keys_obj_set. unfold keys at 4. cbn [fmap list_fmap fst].
    fold (keys o2). rewrite elem_of_cons. tauto.
Qed.

(** X7: in the declarative output an inline body takes the place of the
    source: when the resolved inline script is truthy, the rendered
    element has it as its child and has no [src] attribute, whatever
    [src] the props carry. *)
Theorem rendered_inline_replaces_src (props : ScriptProps) :
  props_strategy props = preHydrate \/ props_strategy props = experimentalPartytown ->
  truthy (resolveInlineScript props) = true ->
  exists a,
    Script_render props = ScriptElement a (Some (resolveInlineScript props))
    /\ ("src" ∉ keys a)
    /\ obj_get "src" a = VUndefined.
Proof.
  intros Hs Hinline. unfold Script_render.
  assert (Hdecl : strict_eq (props_strategy props) preHydrate
                  || strict_eq (props_strategy props) experimentalPartytown = true).
  { destruct Hs as [Hs|Hs]; by strategy_is Hs. }
  rewrite Hdecl, Hinline.
  set (attributes :=
    if strict_eq (props_strategy props) experimentalPartytown
    then obj_set "type" partytown_type (resolveAttributes props)
    else resolveAttributes props).
  assert (Hsrc : "src" ∉ keys attributes).
  { unfold attributes. intros Hin.
    assert (Hin' : "src" ∈ keys (resolveAttributes props)).
    { revert Hin.
      destruct (strict_eq (props_strategy props) experimentalPartytown);
        intros Hin; [|done].
      apply elem_of_keys_obj_set in Hin as [?|?]; [discriminate|done]. }
    apply resolveAttributes_unhandled in Hin'. discriminate. }
  eexists. split; [reflexivity|]. split.
  - rewrite elem_of_keys_obj_spread. intros [Hin|Hin]; [|done].
    cbn in Hin. rewrite !elem_of_cons, elem_of_nil in Hin.
    destruct Hin as [?|[?|?]]; [discriminate|discriminate|done].
  - by rewrite obj_get_spread_out.
Qed.

Lemma rendered_inline_replaces_src_witness :
  (props_strategy inline_and_src = preHydrate
   \/ props_strategy inline_and_src = experimentalPartytown)
  /\ truthy (resolveInlineScript inline_and_src) = true
  /\ obj_get "src" inline_and_src = VString "a.js"
  /\ exists a,
       Script_render inline_and_src =
         ScriptElement a (Some (resolveInlineScript inline_and_src))
       /\ ("src" ∉ keys a)
       /\ obj_get "src" a = VUndefined.
Proof.
  split; [left; reflexivity|]. split; [reflexivity|]. split; [reflexivity|].
  exact (rendered_inline_replaces_src inline_and_src (or_introl eq_refl) eq_refl).
Defined.

Lemma injectScript_Some_element (props : ScriptProps) (w w' : World) (script : handle) :
  injectScript props w = (Some script, w') ->
  script = length (elements w)
  /\ elements w' !! script = Some (injected_element props)
  /\ calls w' = calls w ++ inject_calls props script.
Proof.
  intros Hrun. destruct (decide (script_key props ∈ scriptCache w)) as [Hk|Hk].
  - rewrite injectScript_hit in Hrun by done. discriminate.
  - rewrite injectScript_miss in Hrun by done. inversion Hrun; subst script w'.
    unfold injected_world; cbn [elements calls]. split; [done|]. split; [|done].
    by apply list_lookup_middle.
Qed.

Lemma textContent_set_attrs (l : Obj) (e : Element) :
  textContent (set_attrs l e) = textContent e.
Proof.
  unfold set_attrs. revert e.
  induction l as [|[k v] l IH]; intros e; cbn [fold_left]; [done|].
  by rewrite IH.
Qed.

Lemma textContent_injected_element (props : ScriptProps) :
  textContent (injected_element props) =
  if truthy (resolveInlineScript props) then Some (resolveInlineScript props) else None.
Proof.
  unfold injected_element.
  destruct (truthy (obj_get "onError" props)), (truthy (obj_get "onLoad" props)),
    (truthy (obj_get "src" props)), (truthy (resolveInlineScript props)),
    (truthy (obj_get "id" props));
    cbn [cond add_listener set_attr set_text textContent];
    rewrite ?textContent_set_attrs; reflexivity.
Qed.

Lemma src_injected_element (props : ScriptProps) :
  attrs (injected_element props) !! "src" =
  if truthy (obj_get "src" props) then Some (obj_get "src" props) else None.
Proof.
  unfold injected_element. rewrite !attrs_cond_listener.
  destruct (truthy (obj_get "src" props)); cbn [cond].
  - cbn [set_attr attrs]. apply lookup_insert_eq.
  - rewrite attrs_cond_text, attrs_set_attrs_other.
    + cbn [set_attr attrs]. rewrite lookup_insert_ne by done.
      rewrite attrs_cond_attr_ne by done. done.
    + intros Hin. apply resolveAttributes_unhandled in Hin. discriminate.
Qed.

(** X8: the element a call of [injectScript] creates has a [src]
    attribute exactly when the source is truthy and a text content
    exactly when the resolved inline script is truthy, each with the
    value given; with both supplied it carries both. *)
Theorem injected_src_and_text (props : ScriptProps) (w w' : World) (script : handle) :
  injectScript props w = (Some script, w') ->
  exists e,
    elements w' !! script = Some e
    /\ attrs e !! "src" =
         (if truthy (obj_get "src" props) then Some (obj_get "src" props) else None)
    /\ textContent e =
         (if truthy (resolveInlineScript props)
          then Some (resolveInlineScript props) else None).
Proof.
  intros Hrun. apply injectScript_Some_element in Hrun as (_ & He & _).
  exists (injected_element props). split; [done|].
  split; [apply src_injected_element | apply textContent_injected_element].
Qed.

Lemma injected_src_and_text_witness :
  exists e,
    elements (exec (injectScript inline_and_src) page0) !! 0 = Some e
    /\ attrs e !! "src" = Some (VString "a.js")
    /\ textContent e = Some (VString "init()").
Proof.
  exact (injected_src_and_text inline_and_src page0
           (exec (injectScript inline_and_src) page0) 0
           ltac:(vm_compute; reflexivity)).
Defined.

Lemma obj_get_in (k : string) (o : Obj) : k ∈ keys o -> (k, obj_get k o) ∈ o.
Proof.
  unfold keys. induction o as [|[k' v'] o IH]; cbn; intros Hin.
  - by apply elem_of_nil in Hin.
  - destruct (String.eqb k k') eqn:E.
    + apply String.eqb_eq in E; subst k'. by left.
    + apply String.eqb_neq in E. apply elem_of_cons in Hin as [?|Hin]; [done|].
      right. by apply IH.
Qed.

Lemma obj_get_filter_unhandled (k : string) (o : Obj) :
  handled k = false ->
  obj_get k (filter (fun kv => handled kv.1 = false) o) = obj_get k o.
Proof.
  intros Hk. induction o as [|[k' v'] o IH]; [done|].
  destruct (handled k') eqn:E.
  - rewrite filter_cons_False by (cbn; congruence). cbn.
    destruct (String.eqb k k') eqn:E'; [|done].
    apply String.eqb_eq in E'; subst k'. congruence.
  - rewrite filter_cons_True by done. cbn. by rewrite IH.
Qed.

(** Reading an unhandled key other than [type] off what [Script] spreads
    over the attributes it writes itself. *)
Lemma obj_get_spread_attributes (props : ScriptProps) (k : string) (base : Obj)
    (partytown : bool) :
  NoDup (keys props) -> handled k = false -> k ≠ "type" ->
  obj_get k (obj_spread base
    (if partytown then obj_set "type" partytown_type (resolveAttributes props)
     else resolveAttributes props)) =
  if bool_decide (k ∈ keys props) then obj_get k props else obj_get k base.
Proof.
  intros Hnd Hk Htype.
  set (attributes := if partytown then _ else _).
  assert (Hnda : NoDup (keys attributes)).
  { unfold attributes. destruct partytown;
      [apply obj_set_NoDup|]; apply resolveAttributes_NoDup. }
  assert (Hkeys : k ∈ keys attributes <-> k ∈ keys props).
  { unfold attributes. destruct partytown.
    - rewrite elem_of_keys_obj_set, elem_of_keys_resolveAttributes. tauto.
    - rewrite elem_of_keys_resolveAttributes. tauto. }
  assert (Hget : obj_get k attributes = obj_get k props).
  { unfold attributes. destruct partytown; rewrite ?obj_get_set_ne by done;
      rewrite resolveAttributes_filter by done; by apply obj_get_filter_unhandled. }
  case_bool_decide as Hin.
  - rewrite obj_get_spread_in by (done || by apply Hkeys). done.
  - rewrite obj_get_spread_out; [done|]. by rewrite Hkeys.
Qed.

(** X9: the strategy tag and the [async] flag are defaults.  On an object,
    a [data-strategy] entry of the props replaces the strategy name, on
    the element [injectScript] builds and on the element [Script]
    renders, and an [async] entry replaces the rendered [async]. *)
Theorem strategy_tag_is_a_default (props : ScriptProps) :
  NoDup (keys props) ->
  let tag :=
    if bool_decide ("data-strategy" ∈ keys props)
    then obj_get "data-strategy" props else props_strategy props in
  let async :=
    if bool_decide ("async" ∈ keys props) then obj_get "async" props else VBool true in
  (forall w script w', injectScript props w = (Some script, w') ->
     exists e, elements w' !! script = Some e /\ attrs e !! "data-strategy" = Some tag)
  /\ (forall a c, Script_render props = ScriptElement a c ->
        obj_get "data-strategy" a = tag /\ obj_get "async" a = async).
Proof.
  intros Hnd tag async. split.
  - intros w script w' Hrun. apply injectScript_Some_element in Hrun as (_ & He & _).
    exists (injected_element props). split; [done|].
    unfold injected_element. rewrite !attrs_cond_listener.
    rewrite attrs_cond_attr_ne by done. rewrite attrs_cond_text.
    unfold tag. case_bool_decide as Hin.
    + assert (Hin' : "data-strategy" ∈ keys (resolveAttributes props)).
      { by apply elem_of_keys_resolveAttributes. }
      rewrite (attrs_set_attrs "data-strategy"
                 (obj_get "data-strategy" (resolveAttributes props)));
        [|apply resolveAttributes_NoDup | by apply obj_get_in].
      rewrite resolveAttributes_filter by done.
      by rewrite obj_get_filter_unhandled.
    + rewrite attrs_set_attrs_other.
      * cbn [set_attr attrs]. by rewrite lookup_insert_eq.
      * rewrite elem_of_keys_resolveAttributes. tauto.
  - intros a c. unfold Script_render.
    destruct (strict_eq (props_strategy props) preHydrate
              || strict_eq (props_strategy props) experimentalPartytown); [|discriminate].
    destruct (truthy (resolveInlineScript props)); intros Heq; inversion Heq; subst a c;
      rewrite !obj_get_spread_attributes by done; done.
Qed.

Lemma strategy_tag_is_a_default_witness :
  NoDup (keys own_tag)
  /\ forall a c, Script_render own_tag = ScriptElement a c ->
       obj_get "data-strategy" a =
         (if bool_decide ("data-strategy" ∈ keys own_tag)
          then obj_get "data-strategy" own_tag else props_strategy own_tag)
       /\ obj_get "async" a =
         (if bool_decide ("async" ∈ keys own_tag)
          then obj_get "async" own_tag else VBool true).
Proof.
  assert (Hnd : NoDup (keys own_tag)) by compute_done.
  split; [exact Hnd|].
  exact (proj2 (strategy_tag_is_a_default own_tag Hnd)).
Defined.

(** ** Strategies outside the four cases *)

(** X10: a descriptor without a [strategy] is a post-hydrate one: nothing
    is rendered, the mount runs [injectScript] (subject to the cache) and
    the element it creates is tagged [post-hydrate]. *)
Theorem default_strategy_postHydrate (props : ScriptProps) (w : World) :
  obj_get "strategy" props = VUndefined ->
  Script_render props = Fragment
  /\ calls (exec (Script_effect props) w) =
       calls w ++
       (if bool_decide (script_key props ∈ scriptCache w) then []
        else inject_calls props (length (elements w)))
  /\ forall h, SetDatasetStrategy h (VString "post-hydrate") ∈ inject_calls props h.
Proof.
  intros Hundef.
  assert (Hs : props_strategy props = postHydrate).
  { unfold props_strategy. by rewrite Hundef. }
  split; [|split].
  - unfold Script_render. by strategy_is Hs.
  - unfold exec. rewrite Script_effect_run. cbn [snd]. strategy_is Hs.
    rewrite calls_inject_assign. by destruct w.
  - intros h. unfold inject_calls. rewrite Hs.
    apply elem_of_app. right. apply elem_of_app. right. apply elem_of_app. left.
    by apply list_elem_of_singleton.
Qed.

Lemma default_strategy_postHydrate_witness :
  obj_get "strategy" only_src = VUndefined
  /\ Script_render only_src = Fragment.
Proof.
  split; [reflexivity|].
  exact (proj1 (default_strategy_postHydrate only_src page0 eq_refl)).
Defined.

(** X11: a strategy value that is none of the four members of the
    enumeration matches no case: nothing is rendered, and the mount makes
    no host call, schedules nothing and leaves document and cache as they
    were; its cleanup finds no element and makes no call either. *)
Theorem unknown_strategy_inert (props : ScriptProps) (w : World) :
  (forall s : ScriptStrategy, props_strategy props ≠ s) ->
  let w1 := exec (Script_effect props) w in
  let w2 := exec (Script_unmount (length (closures w))) w1 in
  Script_render props = Fragment
  /\ w1 = closure_created props w
  /\ calls w2 = calls w /\ body w2 = body w /\ elements w2 = elements w
  /\ scriptCache w2 = scriptCache w /\ idleCallbacks w2 = idleCallbacks w.
Proof.
  intros Hs w1 w2.
  assert (Hne : forall s : ScriptStrategy, strict_eq (props_strategy props) s = false).
  { intros s. unfold strict_eq. apply bool_decide_eq_false_2, Hs. }
  assert (Hw1 : w1 = closure_created props w).
  { unfold w1, exec. rewrite Script_effect_run. cbn [snd]. by rewrite !Hne. }
  split; [unfold Script_render; by rewrite !Hne|]. split; [done|].
  unfold w2. rewrite (unmount_nothing_owned _ props)
    by (rewrite Hw1; apply closure_created_lookup).
  rewrite Hw1. by destruct w.
Qed.

Lemma unknown_strategy_inert_witness :
  (forall s : ScriptStrategy,
     props_strategy [("src", VString "a.js"); ("strategy", VString "lazy")] ≠ s)
  /\ Script_render [("src", VString "a.js"); ("strategy", VString "lazy")] = Fragment.
Proof.
  assert (Hs : forall s : ScriptStrategy,
    props_strategy [("src", VString "a.js"); ("strategy", VString "lazy")] ≠ s).
  { intros []; discriminate. }
  split; [exact Hs|].
  exact (proj1 (unknown_strategy_inert
                  [("src", VString "a.js"); ("strategy", VString "lazy")] page0 Hs)).
Defined.

(** ** Two idle mounts of one key *)

Lemma idle_mount (props : ScriptProps) (w : World) :
  props_strategy props = idle ->
  exec (Script_effect props) w =
  mkWorld (scriptCache w) (elements w) (body w) (location_href w) (perfEntries w)
          (closures w ++ [mkClosure props None true])
          (idleCallbacks w ++ [length (closures w)])
          (calls w ++ [RequestIdleCallback (length (closures w))]).
Proof.
  intros Hs. unfold exec. rewrite Script_effect_run. cbn [snd]. strategy_is Hs.
  by destruct w.
Qed.

Lemma idle_fires_world (n c : nat) (props : ScriptProps) (script : option handle)
    (mounted : bool) (w : World) :
  idleCallbacks w !! n = Some c ->
  closures w !! c = Some (mkClosure props script mounted) ->
  exec (idle_fires n) w =
  inject_assign c props (with_idleCallbacks (delete n (idleCallbacks w)) w).
Proof.
  intros Hn Hc. unfold exec. by rewrite (idle_fires_run n c props script mounted).
Qed.

Lemma lookup_snoc2_fst {A : Type} (l : list A) (x y : A) :
  ((l ++ [x]) ++ [y]) !! length l = Some x.
Proof.
  rewrite lookup_app_l by (rewrite length_app; cbn; lia).
  by apply list_lookup_middle.
Qed.

Lemma lookup_snoc2_snd {A : Type} (l : list A) (x y : A) :
  ((l ++ [x]) ++ [y]) !! S (length l) = Some y.
Proof. apply list_lookup_middle. rewrite length_app. cbn. lia. Qed.

Lemma delete_snoc2_fst {A : Type} (l : list A) (x y : A) :
  delete (length l) ((l ++ [x]) ++ [y]) = l ++ [y].
Proof. rewrite <- app_assoc. cbn. apply delete_middle. Qed.

Lemma delete_snoc2_snd {A : Type} (l : list A) (x y : A) :
  delete (S (length l)) ((l ++ [x]) ++ [y]) = l ++ [x].
Proof.
  replace (S (length l)) with (length (l ++ [x])) by (rewrite length_app; cbn; lia).
  rewrite delete_middle. by rewrite app_nil_r.
Qed.

Lemma delete_snoc {A : Type} (l : list A) (x : A) : delete (length l) (l ++ [x]) = l.
Proof. rewrite delete_middle. by rewrite app_nil_r. Qed.

(** X12: two idle components mount descriptors with the same, uncached
    key.  Whichever of the two pending callbacks the host runs first
    inserts the element, built from its own props, and its closure holds
    it; the other callback finds the key cached and does nothing.  Either
    way one element is appended and no callback stays pending. *)
Theorem idle_first_to_fire_wins (p q : ScriptProps) (w : World) :
  props_strategy p = idle ->
  props_strategy q = idle ->
  script_key p = script_key q ->
  script_key p ∉ scriptCache w ->
  body_wf w ->
  let c1 := length (closures w) in
  let c2 := S c1 in
  let n := length (idleCallbacks w) in
  let h := length (elements w) in
  let w2 := exec (Script_effect q) (exec (Script_effect p) w) in
  let wA := exec (idle_fires n) (exec (idle_fires n) w2) in
  let wB := exec (idle_fires n) (exec (idle_fires (S n)) w2) in
  (elements wA = elements w ++ [injected_element p]
   /\ closures wA !! c1 = Some (mkClosure p (Some h) true)
   /\ closures wA !! c2 = Some (mkClosure q None true))
  /\ (elements wB = elements w ++ [injected_element q]
      /\ closures wB !! c1 = Some (mkClosure p None true)
      /\ closures wB !! c2 = Some (mkClosure q (Some h) true))
  /\ body wA = body w ++ [h] /\ body wB = body w ++ [h]
  /\ appended wA = S (appended w) /\ appended wB = S (appended w)
  /\ idleCallbacks wA = idleCallbacks w /\ idleCallbacks wB = idleCallbacks w.
Proof.
  intros Hp Hq Hpq Hk Hwf c1 c2 n h w2 wA wB.
  unfold body_wf in Hwf.
  destruct w as [ca es b hr pe cl iq cs].
  cbn [closures idleCallbacks elements scriptCache body] in *.
  set (P := mkClosure p None true). set (Q := mkClosure q None true).
  assert (Hw2 : w2 =
    mkWorld ca es b hr pe ((cl ++ [P]) ++ [Q]) ((iq ++ [c1]) ++ [c2])
            ((cs ++ [RequestIdleCallback c1]) ++ [RequestIdleCallback c2])).
  { unfold w2. rewrite (idle_mount p) by done. rewrite (idle_mount q) by done.
    world_norm. rewrite length_app. cbn [length]. rewrite Nat.add_1_r. done. }
  assert (Happ2 : appended w2 = appended (mkWorld ca es b hr pe cl iq cs)).
  { rewrite Hw2. unfold appended; world_norm. rewrite !filter_app. cbn.
    by rewrite !app_nil_r. }
  (* the callback of the first mount runs first *)
  assert (HA1 : exec (idle_fires n) w2 =
    mkWorld ({[script_key p]} ∪ ca) (es ++ [injected_element p]) (b ++ [h]) hr pe
      (alter (fun cl0 => mkClosure (cl_props cl0) (Some h) (cl_mounted cl0)) c1
             ((cl ++ [P]) ++ [Q]))
      (iq ++ [c2])
      (((cs ++ [RequestIdleCallback c1]) ++ [RequestIdleCallback c2])
       ++ inject_calls p h)).
  { rewrite (idle_fires_world n c1 p None true);
      [|rewrite Hw2; apply lookup_snoc2_fst | rewrite Hw2; apply lookup_snoc2_fst].
    rewrite Hw2. world_norm. subst n. rewrite delete_snoc2_fst.
    rewrite inject_assign_miss by done. unfold injected_world; world_norm.
    by rewrite filter_ne_fresh. }
  assert (HA : wA =
    mkWorld ({[script_key p]} ∪ ca) (es ++ [injected_element p]) (b ++ [h]) hr pe
      (alter (fun cl0 => mkClosure (cl_props cl0) None (cl_mounted cl0)) c2
        (alter (fun cl0 => mkClosure (cl_props cl0) (Some h) (cl_mounted cl0)) c1
               ((cl ++ [P]) ++ [Q])))
      iq
      (((cs ++ [RequestIdleCallback c1]) ++ [RequestIdleCallback c2])
       ++ inject_calls p h)).
  { unfold wA. rewrite HA1.
    rewrite (idle_fires_world n c2 q None true); world_norm.
    - subst n. rewrite delete_snoc. rewrite inject_assign_hit; [done|].
      world_norm. rewrite <- Hpq. apply elem_of_union_l. by apply elem_of_singleton.
    - by apply list_lookup_middle.
    - rewrite list_lookup_alter_ne by (subst c2; lia). apply lookup_snoc2_snd. }
  (* the callback of the second mount runs first *)
  assert (HB1 : exec (idle_fires (S n)) w2 =
    mkWorld ({[script_key q]} ∪ ca) (es ++ [injected_element q]) (b ++ [h]) hr pe
      (alter (fun cl0 => mkClosure (cl_props cl0) (Some h) (cl_mounted cl0)) c2
             ((cl ++ [P]) ++ [Q]))
      (iq ++ [c1])
      (((cs ++ [RequestIdleCallback c1]) ++ [RequestIdleCallback c2])
       ++ inject_calls q h)).
  { rewrite (idle_fires_world (S n) c2 q None true);
      [|rewrite Hw2; apply lookup_snoc2_snd | rewrite Hw2; apply lookup_snoc2_snd].
    rewrite Hw2. world_norm. subst n. rewrite delete_snoc2_snd.
    rewrite inject_assign_miss by (world_norm; by rewrite <- Hpq).
    unfold injected_world; world_norm. by rewrite filter_ne_fresh. }
  assert (HB : wB =
    mkWorld ({[script_key q]} ∪ ca) (es ++ [injected_element q]) (b ++ [h]) hr pe
      (alter (fun cl0 => mkClosure (cl_props cl0) None (cl_mounted cl0)) c1
        (alter (fun cl0 => mkClosure (cl_props cl0) (Some h) (cl_mounted cl0)) c2
               ((cl ++ [P]) ++ [Q])))
      iq
      (((cs ++ [RequestIdleCallback c1]) ++ [RequestIdleCallback c2])
       ++ inject_calls q h)).
  { unfold wB. rewrite HB1.
    rewrite (idle_fires_world n c1 p None true); world_norm.
    - subst n. rewrite delete_snoc. rewrite inject_assign_hit; [done|].
      world_norm. rewrite Hpq. apply elem_of_union_l. by apply elem_of_singleton.
    - by apply list_lookup_middle.
    - rewrite list_lookup_alter_ne by (subst c2; lia). apply lookup_snoc2_fst. }
  assert (HappA : appended wA = S (appended (mkWorld ca es b hr pe cl iq cs))).
  { rewrite <- Happ2, Hw2, HA. unfold appended; world_norm.
    rewrite (filter_app _ (_ ++ _) (inject_calls p h)), filter_append_inject_calls.
    rewrite length_app. cbn. lia. }
  assert (HappB : appended wB = S (appended (mkWorld ca es b hr pe cl iq cs))).
  { rewrite <- Happ2, Hw2, HB. unfold appended; world_norm.
    rewrite (filter_app _ (_ ++ _) (inject_calls q h)), filter_append_inject_calls.
    rewrite length_app. cbn. lia. }
  rewrite HappA, HappB. rewrite HA, HB. world_norm. subst c2 c1.
  split; [split; [done|split]|split; [split; [done|split]|done]].
  - rewrite list_lookup_alter_ne by lia.
    rewrite list_lookup_alter_eq, lookup_snoc2_fst. done.
  - rewrite list_lookup_alter_eq, list_lookup_alter_ne by lia.
    rewrite lookup_snoc2_snd. done.
  - rewrite list_lookup_alter_eq, list_lookup_alter_ne by lia.
    rewrite lookup_snoc2_fst. done.
  - rewrite list_lookup_alter_ne by lia.
    rewrite list_lookup_alter_eq, lookup_snoc2_snd. done.
Qed.

Lemma idle_first_to_fire_wins_witness :
  props_strategy idle_first = idle
  /\ props_strategy idle_second = idle
  /\ script_key idle_first = script_key idle_second
  /\ (script_key idle_first ∉ scriptCache page0)
  /\ body_wf page0
  /\ elements
       (exec (idle_fires (length (idleCallbacks page0)))
          (exec (idle_fires (S (length (idleCallbacks page0))))
             (exec (Script_effect idle_second) (exec (Script_effect idle_first) page0)))) =
     elements page0 ++ [injected_element idle_second].
Proof.
  split; [reflexivity|]. split; [reflexivity|]. split; [reflexivity|].
  split; [apply not_elem_of_empty|].
  assert (Hwf : body_wf page0) by constructor.
  split; [exact Hwf|].
  destruct (idle_first_to_fire_wins idle_first idle_second page0 eq_refl eq_refl
              eq_refl (not_elem_of_empty _) Hwf) as (_ & (Hel & _) & _).
  exact Hel.
Defined.

(** ** Handlers and the declarative path *)

(** X13: where an element is only rendered, the handlers are dropped.
    Under experimental-partytown, and under pre-hydrate on a page that is
    on the timeline, the rendered element has neither [onLoad] nor
    [onError] among its attributes and the mount attaches no listener. *)
Theorem handlers_dropped_when_rendered (props : ScriptProps) (w : World) :
  props_strategy props = experimentalPartytown
  \/ (props_strategy props = preHydrate /\ alreadyLoaded w (location_href w) = true) ->
  let w1 := exec (Script_effect props) w in
  (exists a c, Script_render props = ScriptElement a c
               /\ ("onLoad" ∉ keys a) /\ ("onError" ∉ keys a))
  /\ filter is_add_listener (calls w1) = filter is_add_listener (calls w)
  /\ elements w1 = elements w.
Proof.
  intros Hs w1. split.
  - assert (Hdecl : strict_eq (props_strategy props) preHydrate
                    || strict_eq (props_strategy props) experimentalPartytown = true).
    { destruct Hs as [Hs|[Hs _]]; by strategy_is Hs. }
    assert (Hattr : forall k, handled k = true -> k ≠ "async" -> k ≠ "src" ->
      k ≠ "data-strategy" -> forall base,
      keys base ⊆ ["async"; "src"; "data-strategy"] ->
      k ∉ keys (obj_spread base
        (if strict_eq (props_strategy props) experimentalPartytown
         then obj_set "type" partytown_type (resolveAttributes props)
         else resolveAttributes props))).
    { intros k Hk H1 H2 H3 base Hbase. rewrite elem_of_keys_obj_spread.
      intros [Hin|Hin].
      - apply Hbase in Hin. rewrite !elem_of_cons, elem_of_nil in Hin. tauto.
      - assert (Hin' : k ∈ keys (resolveAttributes props)).
        { revert Hin.
          destruct (strict_eq (props_strategy props) experimentalPartytown);
            intros Hin; [|done].
          apply elem_of_keys_obj_set in Hin as [->|?]; [discriminate|done]. }
        apply resolveAttributes_unhandled in Hin'. congruence. }
    unfold Script_render. rewrite Hdecl.
    destruct (truthy (resolveInlineScript props)); eexists _, _;
      (split; [reflexivity|]);
      split; apply Hattr; try done; intros x Hx; cbn in Hx;
      rewrite !elem_of_cons, elem_of_nil in Hx; rewrite !elem_of_cons; tauto.
  - assert (Hw1 : w1 = closure_created props w
                  \/ w1 = with_calls (calls w ++ [GetEntriesByName (location_href w)])
                            (closure_created props w)).
    { unfold w1, exec. rewrite Script_effect_run. cbn [snd].
      destruct Hs as [Hs|[Hs Hl]]; strategy_is Hs; [by left|].
      rewrite Hl. by right. }
    destruct Hw1 as [-> | ->]; destruct w; world_norm; unfold closure_created;
      world_norm; [done|].
    rewrite filter_app. cbn. by rewrite app_nil_r.
Qed.

Lemma handlers_dropped_when_rendered_witness :
  props_strategy partytown_handlers = experimentalPartytown
  /\ truthy (obj_get "onLoad" partytown_handlers) = true
  /\ filter is_add_listener (calls (exec (Script_effect partytown_handlers) page0)) =
       filter is_add_listener (calls page0).
Proof.
  split; [reflexivity|]. split; [reflexivity|].
  exact (proj1 (proj2 (handlers_dropped_when_rendered partytown_handlers page0
                         (or_introl eq_refl)))).
Defined.
